(** * Verification model of [lambda_function.py]

    The module is a linear pipeline run once per invocation:
    [get_market_value] (fetch) -> [save_in_bucket] (archive) ->
    [connect_to_mysql] -> [insert_data], driven by [lambda_handler].

    The Python code is embedded as functions in a small monad that
    threads a world (a heap of mutable data frames and the trace of
    the calls made to external collaborators) and can raise Python
    exceptions.  External collaborators (quote provider, object
    storage, secret store, database, process environment, wall clock)
    are oracles gathered in the record [Env]. *)

From Stdlib Require Import ZArith String Ascii List Lia Bool.
From stdpp Require Import base option list gmap strings pretty.
Import ListNotations.

Local Open Scope string_scope.
Local Open Scope list_scope.

(** ** Python exceptions *)

Inductive Exn : Type :=
| KeyError (key : string)
| NameError (name : string)
| ValueError (msg : string)
| TypeError (msg : string)
| OverflowError (msg : string)
| MySQLError (msg : string)       (* mysql.connector.Error and its subclasses *)
| OSError (msg : string)          (* IOError is an alias of OSError *)
| ExternalError (msg : string).   (* any other Exception raised by a collaborator *)

(** [str(err)], as interpolated by the f-strings and [%s] of the module. *)
Definition str_of_exn (e : Exn) : string :=
  match e with
  | KeyError k => "'" +:+ k +:+ "'"
  | NameError n => "name '" +:+ n +:+ "' is not defined"
  | ValueError m | TypeError m | OverflowError m
  | MySQLError m | OSError m | ExternalError m => m
  end.

(** The clause [except (mysql.connector.Error, IOError)]. *)
Definition is_mysql_or_io (e : Exn) : bool :=
  match e with
  | MySQLError _ | OSError _ => true
  | _ => false
  end.

Inductive Result (A : Type) : Type :=
| Return (a : A)
| Raise (e : Exn).
Arguments Return {A} a.
Arguments Raise {A} e.

(** ** Calendar arithmetic of [datetime]

    [datetime.now() - timedelta(days=1)] goes through the proleptic
    Gregorian ordinal of the date, as the [datetime] module does. *)

Module Calendar.
Local Open Scope Z_scope.

Record datetime : Type := mk_datetime {
  year : Z; month : Z; day : Z;
  hour : Z; minute : Z; second : Z; microsecond : Z
}.

Definition is_leap (y : Z) : bool :=
  (y mod 4 =? 0) && (negb (y mod 100 =? 0) || (y mod 400 =? 0)).

Definition days_in_month_table (m : Z) : Z :=
  match m with
  | 1 => 31 | 2 => 28 | 3 => 31 | 4 => 30 | 5 => 31 | 6 => 30
  | 7 => 31 | 8 => 31 | 9 => 30 | 10 => 31 | 11 => 30 | 12 => 31
  | _ => -1
  end.

Definition days_before_month_table (m : Z) : Z :=
  match m with
  | 1 => 0 | 2 => 31 | 3 => 59 | 4 => 90 | 5 => 120 | 6 => 151
  | 7 => 181 | 8 => 212 | 9 => 243 | 10 => 273 | 11 => 304 | 12 => 334
  | _ => -1
  end.

Definition days_before_year (y : Z) : Z :=
  let y' := y - 1 in y' * 365 + y' / 4 - y' / 100 + y' / 400.

Definition days_in_month (y m : Z) : Z :=
  if (m =? 2) && is_leap y then 29 else days_in_month_table m.

Definition days_before_month (y m : Z) : Z :=
  days_before_month_table m + (if (2 <? m) && is_leap y then 1 else 0).

Definition ymd2ord (y m d : Z) : Z :=
  days_before_year y + days_before_month y m + d.

Definition DI400Y : Z := 146097.
Definition DI100Y : Z := 36524.
Definition DI4Y : Z := 1461.

Definition ord2ymd (n : Z) : Z * Z * Z :=
  let n := n - 1 in
  let n400 := n / DI400Y in
  let n := n mod DI400Y in
  let y := n400 * 400 + 1 in
  let n100 := n / DI100Y in
  let n := n mod DI100Y in
  let n4 := n / DI4Y in
  let n := n mod DI4Y in
  let n1 := n / 365 in
  let n := n mod 365 in
  let y := y + n100 * 100 + n4 * 4 + n1 in
  if (n1 =? 4) || (n100 =? 4) then (y - 1, 12, 31)
  else
    let leapyear := (n1 =? 3) && (negb (n4 =? 24) || (n100 =? 3)) in
    let m := Z.shiftr (n + 50) 5 in
    let preceding :=
      days_before_month_table m + (if (2 <? m) && leapyear then 1 else 0) in
    if n <? preceding then
      let m' := m - 1 in
      let preceding' :=
        preceding - (days_in_month_table m'
                     + (if (m' =? 2) && leapyear then 1 else 0)) in
      (y, m', n - preceding' + 1)
    else (y, m, n - preceding + 1).

Definition toordinal (t : datetime) : Z := ymd2ord (year t) (month t) (day t).

Definition MAXORDINAL : Z := 3652059.

(** [t - timedelta(days=1)]: the time of day is kept, the date moves
    to the previous ordinal; the result must stay within
    [1 .. MAXORDINAL], otherwise [OverflowError]. *)
Definition minus_one_day (t : datetime) : Result datetime :=
  let days := toordinal t - 1 in
  if (0 <? days) && (days <=? MAXORDINAL) then
    let '(y, m, d) := ord2ymd days in
    Return (mk_datetime y m d (hour t) (minute t) (second t) (microsecond t))
  else Raise (OverflowError "date value out of range").

Definition digit (n : Z) : string :=
  String (ascii_of_nat (48 + Z.to_nat (n mod 10))) EmptyString.

Definition pad2 (n : Z) : string := (digit (n / 10) ++ digit n)%string.
Definition pad4 (n : Z) : string :=
  (digit (n / 1000) ++ digit (n / 100) ++ digit (n / 10) ++ digit n)%string.

(** [t.strftime('%Y-%m-%d')] *)
Definition strftime_Ymd (t : datetime) : string :=
  (pad4 (year t) ++ "-" ++ pad2 (month t) ++ "-" ++ pad2 (day t))%string.

(** A date of the calendar, as [datetime] accepts it. *)
Definition valid_date (y m d : Z) : Prop :=
  1 <= y <= 9999 /\ 1 <= m <= 12 /\ 1 <= d <= days_in_month y m.

(** The calendar day before [(y, m, d)], by cases on the calendar
    rather than through ordinals. *)
Definition day_before (y m d : Z) : Z * Z * Z :=
  if 1 <? d then (y, m, d - 1)
  else if 1 <? m then (y, m - 1, days_in_month y (m - 1))
  else (y - 1, 12, 31).

End Calendar.
Export Calendar.


(** ** Values and data frames (the part of pandas the module uses) *)

Record Timestamp : Type := mk_Timestamp {
  ts_datetime : datetime;      (* down to the microsecond *)
  ts_nanosecond : Z
}.

Inductive Value : Type :=
| VTimestamp (t : Timestamp)
| VFloat (bits : Z)            (* float64, kept as its IEEE-754 bit pattern *)
| VInt (n : Z)
| VStr (s : string).

Definition NaN : Value := VFloat 0x7ff8000000000000.

(** A frame is kept row by row: [columns] are the labels; a row is its
    index label and its cells, in column order. *)
Record DataFrame : Type := mk_DataFrame {
  columns : list string;
  rows : list (Value * list Value)
}.

(** [df.index] *)
Definition index (df : DataFrame) : list Value := map fst (rows df).

(** The cells of the records of a frame. *)
Definition cells (df : DataFrame) : list (list Value) := map snd (rows df).

(** A row handed out by [iterrows]: cells labelled by column. *)
Definition Series : Type := list (string * Value).

Module Pandas.

(** Positions of the columns labelled [l]. *)
Fixpoint positions_from (i : nat) (l : string) (cols : list string) : list nat :=
  match cols with
  | [] => []
  | c :: cols' =>
      if String.eqb c l then i :: positions_from (S i) l cols'
      else positions_from (S i) l cols'
  end.

Definition positions (l : string) (cols : list string) : list nat :=
  positions_from 0 l cols.

Definition take_cells (ps : list nat) (r : list Value) : list Value :=
  map (fun i => nth i r NaN) ps.

(** [df[[l1, ..., ln]]]: the columns carrying each requested label,
    in the order requested; [KeyError] when a label is absent. *)
Definition getitem_list (labels : list string) (df : DataFrame) : Result DataFrame :=
  match filter (fun l => positions l (columns df) = []) labels with
  | missing :: _ => Raise (KeyError missing)
  | [] =>
      let ps := flat_map (fun l => positions l (columns df)) labels in
      Return {| columns := flat_map (fun l => map (fun _ => l) (positions l (columns df))) labels;
                rows := map (fun ir => (fst ir, take_cells ps (snd ir))) (rows df) |}
  end.

(** [df.columns = names]: relabels in place; the number of labels must
    match. *)
Definition set_columns (names : list string) (df : DataFrame) : Result DataFrame :=
  if Nat.eqb (length names) (length (columns df)) then
    Return {| columns := names; rows := rows df |}
  else Raise (ValueError "Length mismatch").

Fixpoint set_nth (i : nat) (v : Value) (r : list Value) : list Value :=
  match i, r with
  | _, [] => []
  | O, _ :: r' => v :: r'
  | S i', x :: r' => x :: set_nth i' v r'
  end.

(** [df[label] = vals]: replaces the column when the label exists,
    appends a new last column otherwise. *)
Definition setitem (label : string) (vals : list Value) (df : DataFrame) : DataFrame :=
  match positions label (columns df) with
  | [] =>
      {| columns := columns df ++ [label];
         rows := zip_with (fun ir v => (fst ir, snd ir ++ [v])) (rows df) vals |}
  | ps =>
      {| columns := columns df;
         rows := zip_with (fun ir v =>
                             (fst ir, foldr (fun i r' => set_nth i v r') (snd ir) ps))
                          (rows df) vals |}
  end.

(** [df[label] = scalar] broadcasts the scalar over the rows. *)
Definition setitem_scalar (label : string) (v : Value) (df : DataFrame) : DataFrame :=
  setitem label (repeat v (length (rows df))) df.

Definition series_of (cols : list string) (r : list Value) : Series := zip cols r.

(** [df.iterrows()] *)
Definition iterrows (df : DataFrame) : list (Value * Series) :=
  map (fun ir => (fst ir, series_of (columns df) (snd ir))) (rows df).

(** [row[label]] *)
Fixpoint series_get (label : string) (s : Series) : Result Value :=
  match s with
  | [] => Raise (KeyError label)
  | (l, v) :: s' => if String.eqb l label then Return v else series_get label s'
  end.

(** Union of the labels of the frames, in order of first appearance. *)
Fixpoint union_labels (seen : list string) (ls : list string) : list string :=
  match ls with
  | [] => seen
  | l :: ls' =>
      if existsb (String.eqb l) seen then union_labels seen ls'
      else union_labels (seen ++ [l]) ls'
  end.

Definition reindex_row (cols_out cols_in : list string) (r : list Value) : list Value :=
  map (fun l => match series_get l (series_of cols_in r) with
                | Return v => v
                | Raise _ => NaN
                end) cols_out.

(** [pd.concat(frames, ignore_index=True)]: rows one frame after the
    other, over the union of the columns (cells of absent columns are
    NaN), with a fresh range index; an empty list of frames is refused. *)
Definition concat_ignore_index (frames : list DataFrame) : Result DataFrame :=
  match frames with
  | [] => Raise (ValueError "No objects to concatenate")
  | _ =>
      let cols := foldl (fun seen df => union_labels seen (columns df)) [] frames in
      let rs := flat_map (fun df => map (reindex_row cols (columns df)) (cells df)) frames in
      Return {| columns := cols;
                rows := imap (fun i r => (VInt (Z.of_nat i), r)) rs |}
  end.

End Pandas.

(** ** Delimited text: the writer behind [DataFrame.to_csv] and a reader

    [to_csv] writes through a [csv] writer with the default dialect
    (delimiter [,], quote character, doubled quotes, minimal quoting)
    and the line terminator of the platform, a line feed here. *)

Module Csv.

Definition comma : ascii := ","%char.
Definition dquote : ascii := ascii_of_nat 34.
Definition LF : ascii := ascii_of_nat 10.
Definition CR : ascii := ascii_of_nat 13.

Definition str1 (c : ascii) : string := String c EmptyString.

(** Minimal quoting: a field is quoted when it holds the delimiter,
    the quote character or a line break. *)
Definition special (c : ascii) : bool :=
  Ascii.eqb c comma || Ascii.eqb c dquote || Ascii.eqb c LF || Ascii.eqb c CR.

Fixpoint needs_quote (s : string) : bool :=
  match s with
  | EmptyString => false
  | String c s' => special c || needs_quote s'
  end.

Fixpoint double_quotes (s : string) : string :=
  match s with
  | EmptyString => EmptyString
  | String c s' =>
      if Ascii.eqb c dquote then String dquote (String dquote (double_quotes s'))
      else String c (double_quotes s')
  end.

Definition write_field (s : string) : string :=
  if needs_quote s then String dquote (double_quotes s +:+ str1 dquote) else s.

Fixpoint write_fields (fs : list string) : string :=
  match fs with
  | [] => str1 LF
  | [f] => write_field f +:+ str1 LF
  | f :: fs' => write_field f +:+ str1 comma +:+ write_fields fs'
  end.

(** [writerow]: a record made of one empty field is written quoted, so
    that it differs from an empty line. *)
Definition write_row (fs : list string) : string :=
  match fs with
  | [EmptyString] => String dquote (String dquote (str1 LF))
  | _ => write_fields fs
  end.

Fixpoint write_rows (rs : list (list string)) : string :=
  match rs with
  | [] => EmptyString
  | r :: rs' => write_row r +:+ write_rows rs'
  end.

(** The reader is the usual automaton of delimited text. *)
Inductive PState : Type :=
| StartRecord | AfterCR | StartField | InField | InQuoted | QuoteInQuoted.

Inductive Action : Type :=
| Add (c : ascii)     (* the character joins the current field *)
| Save                (* the current field is complete *)
| SaveEnd             (* the current field and the record are complete *)
| EmptyLine           (* a record without fields *)
| Skip.

Definition start_field (c : ascii) : PState * Action :=
  if Ascii.eqb c dquote then (InQuoted, Skip)
  else if Ascii.eqb c comma then (StartField, Save)
  else (InField, Add c).

Definition step (st : PState) (c : ascii) : PState * Action :=
  match st with
  | StartRecord =>
      if Ascii.eqb c LF then (StartRecord, EmptyLine)
      else if Ascii.eqb c CR then (AfterCR, EmptyLine)
      else start_field c
  | AfterCR =>
      if Ascii.eqb c LF then (StartRecord, Skip)
      else if Ascii.eqb c CR then (AfterCR, EmptyLine)
      else start_field c
  | StartField =>
      if Ascii.eqb c LF then (StartRecord, SaveEnd)
      else if Ascii.eqb c CR then (AfterCR, SaveEnd)
      else start_field c
  | InField =>
      if Ascii.eqb c LF then (StartRecord, SaveEnd)
      else if Ascii.eqb c CR then (AfterCR, SaveEnd)
      else if Ascii.eqb c comma then (StartField, Save)
      else (InField, Add c)
  | InQuoted =>
      if Ascii.eqb c dquote then (QuoteInQuoted, Skip) else (InQuoted, Add c)
  | QuoteInQuoted =>
      if Ascii.eqb c dquote then (InQuoted, Add dquote)
      else if Ascii.eqb c LF then (StartRecord, SaveEnd)
      else if Ascii.eqb c CR then (AfterCR, SaveEnd)
      else if Ascii.eqb c comma then (StartField, Save)
      else (InField, Add c)
  end.

Fixpoint read (st : PState) (fld : string) (row : list string) (s : string)
  : list (list string) :=
  match s with
  | EmptyString =>
      match st with
      | StartRecord | AfterCR => []
      | _ => [row ++ [fld]]
      end
  | String c s' =>
      let '(st', a) := step st c in
      match a with
      | Add c' => read st' (fld +:+ str1 c') row s'
      | Save => read st' EmptyString (row ++ [fld]) s'
      | SaveEnd => (row ++ [fld]) :: read st' EmptyString [] s'
      | EmptyLine => [] :: read st' EmptyString [] s'
      | Skip => read st' fld row s'
      end
  end.

Definition read_csv (s : string) : list (list string) :=
  read StartRecord EmptyString [] s.

End Csv.


(** ** The world outside the module *)

Definition loc : Type := nat.          (* reference to a data frame *)
Definition Cnx : Type := nat.          (* handle of a database connection *)

Record Config : Type := mk_Config {
  user : option string;
  password : option string;
  host : option string;
  database : option string;
  port : option string;
  raise_on_warnings : bool
}.

(** The values bound to the four placeholders of the insert. *)
Definition Params : Type := (datetime * Value * Value * Value)%type.

Inductive Event : Type :=
| Log (msg : string)
| GetSecretValue (region secret_id : string)
| Download (ticker period interval : string)
| PutObject (body bucket key : string)
| Connect (cfg : Config)
| Sleep (seconds : Z)
| Cursor (cnx : Cnx)
| Execute (cnx : Cnx) (query : string) (params : Params)
| Commit (cnx : Cnx)
| CursorClose (cnx : Cnx)
| CnxClose (cnx : Cnx).

(** What the collaborators answer.  The quote provider, the database
    connector and the cursor are asked several times in a run; their
    answer may depend on how many times they were asked before. *)
Record Env : Type := mk_Env {
  environ : gmap string string;                         (* os.environ *)
  now : datetime;                                       (* datetime.now() *)
  scalar_text : Value -> string;                        (* text of a date or number cell *)
  get_secret_value : string -> string -> Result (gmap string string);
  yf_download : nat -> string -> Result DataFrame;
  put_object : string -> string -> string -> Result unit;
  mysql_connect : nat -> Config -> Result Cnx;
  cnx_cursor : Cnx -> Result unit;
  cursor_execute : nat -> Cnx -> string -> Params -> Result unit;
  cnx_commit : Cnx -> Result unit;
  cursor_close : Cnx -> Result unit;
  cnx_close : Cnx -> Result unit
}.

Record World : Type := mk_World {
  heap : gmap loc DataFrame;
  trace : list Event
}.

Definition init_world : World := {| heap := ∅; trace := [] |}.

(** ** The monad: world passing with exceptions *)

Definition M (A : Type) : Type := World -> World * Result A.

Definition ret {A} (a : A) : M A := fun w => (w, Return a).
Definition raise {A} (e : Exn) : M A := fun w => (w, Raise e).
Definition lift {A} (r : Result A) : M A := fun w => (w, r).

Definition bind {A B} (m : M A) (k : A -> M B) : M B :=
  fun w =>
    match m w with
    | (w', Return a) => k a w'
    | (w', Raise e) => (w', Raise e)
    end.

Notation "x <- m ;; k" := (bind m (fun x => k))
  (at level 20, m at level 99, k at level 200, only parsing).
Notation "m ;; k" := (bind m (fun _ => k))
  (at level 100, k at level 200, only parsing, right associativity).

(** [try: m except ...: h]; [h e = None] when no clause matches [e]. *)
Definition try_except {A} (m : M A) (h : Exn -> option (M A)) : M A :=
  fun w =>
    match m w with
    | (w', Raise e) =>
        match h e with
        | Some k => k w'
        | None => (w', Raise e)
        end
    | r => r
    end.

Definition emit (ev : Event) : M unit :=
  fun w => ({| heap := heap w; trace := trace w ++ [ev] |}, Return tt).

Definition get_trace : M (list Event) := fun w => (w, Return (trace w)).

Definition alloc (df : DataFrame) : M loc :=
  fun w =>
    let l := fresh (dom (heap w)) in
    ({| heap := <[l := df]> (heap w); trace := trace w |}, Return l).

Definition load (l : loc) : M DataFrame :=
  fun w =>
    match heap w !! l with
    | Some df => (w, Return df)
    | None => (w, Raise (ExternalError "no such object"))
    end.

Definition is_download (ev : Event) : bool :=
  match ev with Download _ _ _ => true | _ => false end.
Definition is_connect (ev : Event) : bool :=
  match ev with Connect _ => true | _ => false end.
Definition is_execute (ev : Event) : bool :=
  match ev with Execute _ _ _ => true | _ => false end.
Definition is_sleep (ev : Event) : bool :=
  match ev with Sleep _ => true | _ => false end.
Definition is_put_object (ev : Event) : bool :=
  match ev with PutObject _ _ _ => true | _ => false end.

Definition count (p : Event -> bool) (tr : list Event) : nat :=
  length (List.filter p tr).

(** Names bound at module level by the imports, the assignment to
    [logger] and the six [def]s. *)
Definition module_globals : list string :=
  ["logging"; "json"; "pd"; "boto3"; "io"; "mysql"; "os"; "time"; "yf";
   "datetime"; "timedelta"; "Any"; "Dict"; "Optional"; "Union"; "logger";
   "insert_data"; "get_secret"; "connect_to_mysql"; "save_in_bucket";
   "get_market_value"; "lambda_handler"].

Fixpoint assoc (x : string) (l : list (string * string)) : option string :=
  match l with
  | [] => None
  | (k, v) :: l' => if String.eqb k x then Some v else assoc x l'
  end.

(** Reading a name inside a function body: the locals, then the module
    globals; a name bound in neither (and that is no builtin) raises
    [NameError].  The result is the text the name interpolates to. *)
Definition load_name (locals : list (string * string)) (x : string) : M string :=
  match assoc x locals with
  | Some v => ret v
  | None =>
      if existsb (String.eqb x) module_globals then ret ("<" +:+ x +:+ ">")
      else raise (NameError x)
  end.

(** The response of the handler: a dictionary with [statusCode] and
    [body], or Python's [None] when the body falls off its end. *)
Inductive PyValue : Type :=
| PyNone
| Response (statusCode : Z) (body : string).

(** [json.dumps] of a string without characters to escape. *)
Definition json_dumps (s : string) : string :=
  Csv.str1 Csv.dquote +:+ s +:+ Csv.str1 Csv.dquote.

(** [dict[k] = v] on an insertion-ordered dictionary. *)
Definition dict_set {V} (k : string) (v : V) (d : list (string * V)) : list (string * V) :=
  if existsb (fun kv => String.eqb (fst kv) k) d
  then map (fun kv => if String.eqb (fst kv) k then (k, v) else kv) d
  else d ++ [(k, v)].

(** [pd.Timestamp.to_pydatetime(v)] *)
Definition to_pydatetime (v : Value) : Result datetime :=
  match v with
  | VTimestamp t => Return (ts_datetime t)
  | _ => Raise (TypeError "descriptor 'to_pydatetime' requires a Timestamp")
  end.

(** The tuple [data_moneda] built from a row in [insert_data]. *)
Definition row_params (row : Series) : Result Params :=
  match Pandas.series_get "fecha" row with
  | Raise e => Raise e
  | Return fecha =>
  match to_pydatetime fecha with
  | Raise e => Raise e
  | Return fecha =>
  match Pandas.series_get "moneda" row with
  | Raise e => Raise e
  | Return moneda =>
  match Pandas.series_get "cotizacion" row with
  | Raise e => Raise e
  | Return cotizacion =>
  match Pandas.series_get "volumen" row with
  | Raise e => Raise e
  | Return volumen => Return (fecha, moneda, cotizacion, volumen)
  end end end end end.

(** The reshaping of a provider answer in the loop of
    [get_market_value]: selection of the two columns (on a copy),
    renaming, the two added columns, and the reordering. *)
Definition shape_frame (moneda : string) (data_moneda : DataFrame) : Result DataFrame :=
  match Pandas.getitem_list ["Adj Close"; "Volume"] data_moneda with
  | Raise e => Raise e
  | Return data_moneda =>
  match Pandas.set_columns ["cotizacion"; "volumen"] data_moneda with
  | Raise e => Raise e
  | Return data_moneda =>
      let data_moneda := Pandas.setitem "fecha" (index data_moneda) data_moneda in
      let data_moneda := Pandas.setitem_scalar "moneda" (VStr moneda) data_moneda in
      Pandas.getitem_list ["fecha"; "cotizacion"; "volumen"; "moneda"] data_moneda
  end end.

(** ** The functions of [lambda_function.py] *)

Section Program.
Variable env : Env.

(** [os.environ[k]] *)
Definition os_environ (k : string) : M string :=
  match environ env !! k with
  | Some v => ret v
  | None => raise (KeyError k)
  end.

(** [merged_data.to_csv(csv_buffer, index=False)] then [getvalue()] *)
Definition cell_text (v : Value) : string :=
  match v with
  | VStr s => s
  | _ => scalar_text env v
  end.

Definition to_csv (df : DataFrame) : string :=
  Csv.write_rows (columns df :: map (map cell_text) (cells df)).

Definition execute_call (cnx : Cnx) (query : string) (params : Params) : M unit :=
  tr <- get_trace;;
  emit (Execute cnx query params);;
  lift (cursor_execute env (count is_execute tr) cnx query params).

Fixpoint insert_rows (cnx : Cnx) (query : string) (its : list (Value * Series)) : M unit :=
  match its with
  | [] => ret tt
  | (idx, row) :: its' =>
      data_moneda <- lift (row_params row);;
      execute_call cnx query data_moneda;;
      insert_rows cnx query its'
  end.

Definition insert_data (cnx : Cnx) (merged_data : loc) : M unit :=
  table_name <- os_environ "DB_TABLE_NAME";;
  let query := "INSERT INTO " +:+ table_name
               +:+ " (fecha, moneda, Cotizacion, volumen) VALUES (%s, %s, %s, %s)" in
  emit (Cursor cnx);; lift (cnx_cursor env cnx);;
  df <- load merged_data;;
  insert_rows cnx query (Pandas.iterrows df);;
  emit (Commit cnx);; lift (cnx_commit env cnx);;
  emit (CursorClose cnx);; lift (cursor_close env cnx).

Definition get_secret : M (gmap string string) :=
  secret_name <- os_environ "SECRET_NAME";;
  region_name <- os_environ "REGION_NAME";;
  emit (GetSecretValue region_name secret_name);;
  lift (get_secret_value env region_name secret_name).

Definition connect_call (config : Config) : M Cnx :=
  tr <- get_trace;;
  emit (Connect config);;
  lift (mysql_connect env (count is_connect tr) config).

(** The [while attempt < attempts + 1] loop.  [fuel] bounds the number
    of iterations; [connect_to_mysql] provides as many as the loop
    condition allows. *)
Fixpoint connect_loop (fuel : nat) (config : Config) (attempts delay attempt : Z)
  : M (option Cnx) :=
  match fuel with
  | O => ret None
  | S fuel' =>
      if (attempt <? attempts + 1)%Z then
        try_except
          (emit (Log ("Trying to connect to MySQL, attempt " +:+ pretty attempt));;
           cnx <- connect_call config;;
           emit (Log "Connected to MySQL!");;
           ret (Some cnx))
          (fun err =>
             if is_mysql_or_io err then Some (
               if (attempt =? attempts)%Z then
                 emit (Log ("Failed to connect, exiting without a connection: "
                            +:+ str_of_exn err));;
                 ret None
               else
                 let locals := [("attempts", pretty attempts); ("delay", pretty delay);
                                ("attempt", pretty attempt); ("err", str_of_exn err)] in
                 s_err <- load_name locals "err";;
                 s_attempt <- load_name locals "attempt";;
                 s_attemps <- load_name locals "attemps";;
                 emit (Log ("Connection failed: " +:+ s_err +:+ ". Retrying ("
                            +:+ s_attempt +:+ "/" +:+ s_attemps +:+ ")..."));;
                 emit (Sleep (delay ^ attempt));;
                 connect_loop fuel' config attempts delay (attempt + 1)%Z)
             else None)
      else ret None
  end.

Definition connect_to_mysql (attempts delay : Z) : M (option Cnx) :=
  secret <- get_secret;;
  let config := {| user := secret !! "username";
                   password := secret !! "password";
                   host := secret !! "host";
                   database := secret !! "dbname";
                   port := secret !! "port";
                   raise_on_warnings := true |} in
  let attempt := 1%Z in
  connect_loop (Z.to_nat (attempts + 1 - attempt)) config attempts delay attempt.

Definition save_in_bucket (merged_data : loc) : M unit :=
  bucket_name <- os_environ "BUCKET_DEST";;
  df <- load merged_data;;
  let body := to_csv df in
  emit (Log ("Trying to upload .csv to " +:+ bucket_name));;
  yesterday <- lift (minus_one_day (now env));;
  let key := strftime_Ymd yesterday +:+ ".csv" in
  emit (PutObject body bucket_name key);;
  lift (put_object env body bucket_name key);;
  emit (Log ("CSV uploaded to " +:+ bucket_name +:+ " successfully")).

Definition tickers : list string := ["BTC-USD"; "ETH-USD"; "^GSPC"; "^IXIC"; "GC=F"].

Definition download_call (moneda : string) : M DataFrame :=
  tr <- get_trace;;
  emit (Download moneda "1d" "1d");;
  lift (yf_download env (count is_download tr) moneda).

(** One iteration of the loop over the tickers: the frame stored in
    the dictionary under [moneda]. *)
Definition ticker_frame (moneda : string) : M DataFrame :=
  emit (Log ("Getting " +:+ moneda +:+ " data"));;
  data_moneda <- download_call moneda;;
  emit (Log ("Downloaded " +:+ moneda +:+ " data"));;
  lift (shape_frame moneda data_moneda).

Fixpoint ticker_loop (ts : list string) (dataframes_por_moneda : list (string * DataFrame))
  : M (list (string * DataFrame)) :=
  match ts with
  | [] => ret dataframes_por_moneda
  | moneda :: ts' =>
      data_moneda <- ticker_frame moneda;;
      ticker_loop ts' (dict_set moneda data_moneda dataframes_por_moneda)
  end.

(** The body of [get_market_value], for a given list of tickers. *)
Definition get_market_value_of (tickers : list string) : M loc :=
  dataframes_por_moneda <- ticker_loop tickers [];;
  let dataframes_lista := map snd dataframes_por_moneda in
  merged_data <- lift (Pandas.concat_ignore_index dataframes_lista);;
  alloc merged_data.

Definition get_market_value : M loc := get_market_value_of tickers.

(** The body of [lambda_handler], for a given connection step. *)
Definition lambda_handler_with (connect : M (option Cnx)) : M PyValue :=
  try_except
    (data <- get_market_value;;
     save_in_bucket data;;
     cnx <- connect;;
     match cnx with
     | Some cnx =>
         insert_data cnx data;;
         emit (CnxClose cnx);; lift (cnx_close env cnx);;
         ret (Response 200 (json_dumps "Data scrapped successfully!"))
     | None => ret PyNone
     end)
    (fun e => Some (raise e)).

Definition lambda_handler : M PyValue :=
  lambda_handler_with (connect_to_mysql 3 2).

End Program.

(** ** Concrete collaborators, used to run the model *)

Definition midnight (y m d : Z) : Timestamp :=
  mk_Timestamp (mk_datetime y m d 0 0 0 0) 0.

(** A provider answer with one daily bar. *)
Definition one_bar (close vol : Z) : DataFrame :=
  {| columns := ["Open"; "High"; "Low"; "Close"; "Adj Close"; "Volume"];
     rows := [(VTimestamp (midnight 2024 3 14),
               [VFloat 1; VFloat 2; VFloat 3; VFloat 4; VFloat close; VInt vol])] |}.


Definition sample_text (v : Value) : string :=
  match v with
  | VTimestamp t => strftime_Ymd (ts_datetime t)
  | VFloat b => pretty b
  | VInt n => pretty n
  | VStr s => s
  end.

Definition sample_environ : gmap string string :=
  <["DB_TABLE_NAME" := "cotizaciones"]>
    (<["BUCKET_DEST" := "bucket"]>
       (<["SECRET_NAME" := "secret"]> (<["REGION_NAME" := "us-east-1"]> ∅))).

Definition sample_secret : gmap string string :=
  <["username" := "admin"]>
    (<["password" := "pw"]>
       (<["host" := "db"]> (<["dbname" := "market"]> (<["port" := "3306"]> ∅)))).

(** Every collaborator answers; the database accepts the first
    connection attempt. *)
Definition env_ok : Env :=
  {| environ := sample_environ;
     now := mk_datetime 2024 3 15 6 30 0 0;
     scalar_text := sample_text;
     get_secret_value := fun _ _ => Return sample_secret;
     yf_download := fun n _ => Return (one_bar (100 + Z.of_nat n) 7);
     put_object := fun _ _ _ => Return tt;
     mysql_connect := fun _ _ => Return 5;
     cnx_cursor := fun _ => Return tt;
     cursor_execute := fun _ _ _ _ => Return tt;
     cnx_commit := fun _ => Return tt;
     cursor_close := fun _ => Return tt;
     cnx_close := fun _ => Return tt |}.

Definition with_connector (c : nat -> Config -> Result Cnx) (e : Env) : Env :=
  {| environ := environ e; now := now e; scalar_text := scalar_text e;
     get_secret_value := get_secret_value e; yf_download := yf_download e;
     put_object := put_object e; mysql_connect := c;
     cnx_cursor := cnx_cursor e; cursor_execute := cursor_execute e;
     cnx_commit := cnx_commit e; cursor_close := cursor_close e;
     cnx_close := cnx_close e |}.

Definition with_provider (p : nat -> string -> Result DataFrame) (e : Env) : Env :=
  {| environ := environ e; now := now e; scalar_text := scalar_text e;
     get_secret_value := get_secret_value e; yf_download := p;
     put_object := put_object e; mysql_connect := mysql_connect e;
     cnx_cursor := cnx_cursor e; cursor_execute := cursor_execute e;
     cnx_commit := cnx_commit e; cursor_close := cursor_close e;
     cnx_close := cnx_close e |}.

(** The database refuses every connection attempt. *)
Definition env_db_down : Env :=
  with_connector (fun _ _ => Raise (MySQLError "Can't connect to MySQL server")) env_ok.

(** The database refuses the first two attempts and accepts the third. *)
Definition env_db_flaky : Env :=
  with_connector
    (fun n _ => if Nat.ltb n 2 then Raise (MySQLError "Can't connect to MySQL server")
                else Return 5)
    env_ok.

(** The quote provider fails on the second request. *)
Definition env_provider_down : Env :=
  with_provider
    (fun n _ => if Nat.eqb n 1 then Raise (ExternalError "connection reset")
                else Return (one_bar 100 7))
    env_ok.


(** ** Vocabulary of the statements *)

(** *** Traces and heap *)

(** The events a computation adds to the trace. *)
Definition events_of {A} (m : M A) (w : World) : list Event :=
  drop (length (trace w)) (trace (fst (m w))).

(** A computation that leaves every data frame of the heap as it is. *)
Definition heap_pure {A} (m : M A) : Prop :=
  forall w, heap (fst (m w)) = heap w.

(** The tickers of the download requests of a trace, in order. *)
Definition requested (tr : list Event) : list string :=
  flat_map (fun ev => match ev with Download t _ _ => [t] | _ => [] end) tr.

(** The objects put to storage in a trace: body, bucket and key. *)
Definition archived (tr : list Event) : list (string * string * string) :=
  flat_map (fun ev => match ev with
                      | PutObject body bucket key => [(body, bucket, key)]
                      | _ => []
                      end) tr.

(** The parameters of the inserts executed in a trace. *)
Definition executed (tr : list Event) : list Params :=
  flat_map (fun ev => match ev with Execute _ _ p => [p] | _ => [] end) tr.

(** *** Quote Records *)

(** The fields of a Quote Record, and the field a column label stands for. *)
Inductive Field : Type := FDate | FSymbol | FPrice | FVolume.

Definition field_of_column (c : string) : option Field :=
  if String.eqb c "fecha" then Some FDate
  else if String.eqb c "moneda" then Some FSymbol
  else if String.eqb c "cotizacion" then Some FPrice
  else if String.eqb c "volumen" then Some FVolume
  else None.

(** The column a field of a Quote Record is stored under, and the
    field of a row. *)
Definition column_of_field (f : Field) : string :=
  match f with
  | FDate => "fecha"
  | FSymbol => "moneda"
  | FPrice => "cotizacion"
  | FVolume => "volumen"
  end.

Definition field_value (f : Field) (row : Series) : Result Value :=
  Pandas.series_get (column_of_field f) row.

(** The order of the fields of a Quote Record. *)
Definition record_order : list (option Field) :=
  [Some FDate; Some FSymbol; Some FPrice; Some FVolume].

(** The field order of a delimited text: the fields its header names. *)
Definition csv_field_order (body : string) : list (option Field) :=
  map field_of_column (hd [] (Csv.read_csv body)).

(** The parameters [p] bind the date, the symbol, the price and the
    volume of the row, in that order. *)
Definition binds_record (row : Series) (p : Params) : Prop :=
  exists t s pr v,
    p = (ts_datetime t, s, pr, v) /\
    field_value FDate row = Return (VTimestamp t) /\
    field_value FSymbol row = Return s /\
    field_value FPrice row = Return pr /\
    field_value FVolume row = Return v.

(** The columns of the frames built by the fetcher. *)
Definition quote_columns : list string := ["fecha"; "cotizacion"; "volumen"; "moneda"].

(** A frame holding quote records of the instrument [k] only. *)
Definition quotes_of (k : string) (df : DataFrame) : Prop :=
  columns df = quote_columns /\
  Forall (fun r => exists f c v, r = [f; c; v; VStr k]) (cells df).

(** The provider has answered a request for [s] with [n] bars. *)
Definition answered (env : Env) (s : string) (n : nat) : Prop :=
  exists i df, yf_download env i s = Return df /\ length (rows df) = n.



(** *** Database and archive *)

(** The text of the insert statement for a table. *)
Definition insert_query (table_name : string) : string :=
  "INSERT INTO " +:+ table_name
  +:+ " (fecha, moneda, Cotizacion, volumen) VALUES (%s, %s, %s, %s)".

(** The database accepts whatever is asked on connection [cnx]. *)
Definition db_accepts (env : Env) (cnx : Cnx) : Prop :=
  cnx_cursor env cnx = Return tt /\
  (forall n q p, cursor_execute env n cnx q p = Return tt) /\
  cnx_commit env cnx = Return tt /\
  cursor_close env cnx = Return tt.

(** The key of the archive for a wall-clock reading: the calendar day
    before, as year-month-day, with the suffix of the file type. *)
Definition yesterday_key (t : datetime) : string :=
  let '(y, m, d) := day_before (year t) (month t) (day t) in
  pad4 y +:+ "-" +:+ pad2 m +:+ "-" +:+ pad2 d +:+ ".csv".

(** *** Runs of the handler *)

(** What the handler does once the fetch has returned [data]. *)
Definition after_fetch (env : Env) (connect : M (option Cnx)) (data : loc) : M PyValue :=
  save_in_bucket env data;;
  cnx <- connect;;
  match cnx with
  | Some cnx =>
      insert_data env cnx data;;
      emit (CnxClose cnx);; lift (cnx_close env cnx);;
      ret (Response 200 (json_dumps "Data scrapped successfully!"))
  | None => ret PyNone
  end.

(** A step of the pipeline raises [e] during the run started in [w],
    leaving the world [w']. *)
Inductive step_raises (env : Env) (w : World) (e : Exn) (w' : World) : Prop :=
| fetch_raises :
    get_market_value env w = (w', Raise e) -> step_raises env w e w'
| archive_raises w1 data :
    get_market_value env w = (w1, Return data) ->
    save_in_bucket env data w1 = (w', Raise e) -> step_raises env w e w'
| connect_raises w1 data w2 u :
    get_market_value env w = (w1, Return data) ->
    save_in_bucket env data w1 = (w2, Return u) ->
    connect_to_mysql env 3 2 w2 = (w', Raise e) -> step_raises env w e w'
| insert_raises w1 data w2 u w3 cnx :
    get_market_value env w = (w1, Return data) ->
    save_in_bucket env data w1 = (w2, Return u) ->
    connect_to_mysql env 3 2 w2 = (w3, Return (Some cnx)) ->
    insert_data env cnx data w3 = (w', Raise e) -> step_raises env w e w'
| close_raises w1 data w2 u w3 cnx w4 u' :
    get_market_value env w = (w1, Return data) ->
    save_in_bucket env data w1 = (w2, Return u) ->
    connect_to_mysql env 3 2 w2 = (w3, Return (Some cnx)) ->
    insert_data env cnx data w3 = (w4, Return u') ->
    (emit (CnxClose cnx);; lift (cnx_close env cnx)) w4 = (w', Raise e) ->
    step_raises env w e w'.

(** Every file archived by a run of the handler has its columns in the
    order of the fields of a Quote Record. *)
Definition archive_in_record_order (env : Env) (w : World) : Prop :=
  Forall (fun a => csv_field_order (fst (fst a)) = record_order)
         (archived (events_of (lambda_handler env) w)).

(** Checking the calendar arithmetic over a range of years. *)
Section calendar_check.
Local Open Scope Z_scope.

Definition triple_eqb (a b : Z * Z * Z) : bool :=
  let '(a1, a2, a3) := a in
  let '(b1, b2, b3) := b in
  (a1 =? b1) && (a2 =? b2) && (a3 =? b3).

(** The integers [lo], [lo + 1], ..., [lo + n - 1]. *)
Definition range (lo : Z) (n : nat) : list Z := map (fun i => lo + Z.of_nat i) (seq 0 n).

(** The check of one month and of one year: going back one ordinal
    from each of their days gives the day before of the calendar. *)
Definition check_month (y m : Z) : bool :=
  forallb (fun d => triple_eqb (ord2ymd (ymd2ord y m d - 1)) (day_before y m d))
          (range 1 (Z.to_nat (days_in_month y m))).

Definition check_year (y : Z) : bool := forallb (check_month y) (range 1 12).

End calendar_check.

(** ** More collaborators and vocabulary *)

Definition with_environ (vars : gmap string string) (e : Env) : Env :=
  {| environ := vars; now := now e; scalar_text := scalar_text e;
     get_secret_value := get_secret_value e; yf_download := yf_download e;
     put_object := put_object e; mysql_connect := mysql_connect e;
     cnx_cursor := cnx_cursor e; cursor_execute := cursor_execute e;
     cnx_commit := cnx_commit e; cursor_close := cursor_close e;
     cnx_close := cnx_close e |}.

(** No variable of the environment is set. *)
Definition env_unconfigured : Env := with_environ ∅ env_ok.

(** [REGION_NAME] is not set. *)
Definition env_no_region : Env :=
  with_environ (delete "REGION_NAME" sample_environ) env_ok.

(** The connection parameters [connect_to_mysql] reads from the secret:
    a key absent from the secret gives [None]. *)
Definition config_of_secret (secret : gmap string string) : Config :=
  {| user := secret !! "username";
     password := secret !! "password";
     host := secret !! "host";
     database := secret !! "dbname";
     port := secret !! "port";
     raise_on_warnings := true |}.

Definition with_secret_store
  (s : string -> string -> Result (gmap string string)) (e : Env) : Env :=
  {| environ := environ e; now := now e; scalar_text := scalar_text e;
     get_secret_value := s; yf_download := yf_download e;
     put_object := put_object e; mysql_connect := mysql_connect e;
     cnx_cursor := cnx_cursor e; cursor_execute := cursor_execute e;
     cnx_commit := cnx_commit e; cursor_close := cursor_close e;
     cnx_close := cnx_close e |}.

(** The secret store refuses the request. *)
Definition env_secret_denied : Env :=
  with_secret_store (fun _ _ => Raise (ExternalError "AccessDeniedException")) env_ok.

(** The connector fails with an error that is neither a MySQL error nor
    an I/O error. *)
Definition env_connector_broken : Env :=
  with_connector (fun _ _ => Raise (TypeError "an integer is required")) env_ok.


(** The table of the inserts is not configured. *)
Definition env_no_table : Env :=
  with_environ (delete "DB_TABLE_NAME" sample_environ) env_ok.

Definition with_cursor
  (x : nat -> Cnx -> string -> Params -> Result unit) (e : Env) : Env :=
  {| environ := environ e; now := now e; scalar_text := scalar_text e;
     get_secret_value := get_secret_value e; yf_download := yf_download e;
     put_object := put_object e; mysql_connect := mysql_connect e;
     cnx_cursor := cnx_cursor e; cursor_execute := x;
     cnx_commit := cnx_commit e; cursor_close := cursor_close e;
     cnx_close := cnx_close e |}.

(** The database refuses the third insert. *)
Definition env_insert_fails : Env :=
  with_cursor (fun n _ _ _ => if Nat.eqb n 2 then Raise (MySQLError "Data too long")
                              else Return tt) env_ok.

(** The events of one iteration of the loop of [get_market_value] that
    completes. *)
Definition fetch_events (moneda : string) : list Event :=
  [Log ("Getting " +:+ moneda +:+ " data");
   Download moneda "1d" "1d";
   Log ("Downloaded " +:+ moneda +:+ " data")].


(** The provider answers the requests number [k], [k + 1], ... made for
    the tickers [ts] with the frames [answers], and each of these can be
    reshaped. *)
Fixpoint answers_from (env : Env) (k : nat) (ts : list string) (answers : list DataFrame)
  : Prop :=
  match ts, answers with
  | [], [] => True
  | t :: ts', a :: answers' =>
      yf_download env k t = Return a /\
      (exists df, shape_frame t a = Return df) /\
      answers_from env (S k) ts' answers'
  | _, _ => False
  end.

(** The iteration for [t], made as request number [k], raises [e]: the
    provider raises it, or the reshaping of its answer does. *)
Definition ticker_fails (env : Env) (k : nat) (t : string) (e : Exn) : Prop :=
  yf_download env k t = Raise e \/
  exists a, yf_download env k t = Return a /\ shape_frame t a = Raise e.

(** The third answer of the provider has no [Adj Close] column. *)
Definition env_no_adj_close : Env :=
  with_provider
    (fun n _ => if Nat.eqb n 2
                then Return {| columns := ["Open"; "High"; "Low"; "Close"; "Volume"];
                               rows := [] |}
                else Return (one_bar (100 + Z.of_nat n) 7))
    env_ok.

Definition is_cnx_close (ev : Event) : bool :=
  match ev with CnxClose _ => true | _ => false end.

Definition with_storage (p : string -> string -> string -> Result unit) (e : Env) : Env :=
  {| environ := environ e; now := now e; scalar_text := scalar_text e;
     get_secret_value := get_secret_value e; yf_download := yf_download e;
     put_object := p; mysql_connect := mysql_connect e;
     cnx_cursor := cnx_cursor e; cursor_execute := cursor_execute e;
     cnx_commit := cnx_commit e; cursor_close := cursor_close e;
     cnx_close := cnx_close e |}.

(** The object storage refuses the put. *)
Definition env_put_fails : Env :=
  with_storage (fun _ _ _ => Raise (ExternalError "AccessDenied")) env_ok.

(** The bucket of the archive is not configured. *)
Definition env_no_bucket : Env :=
  with_environ (delete "BUCKET_DEST" sample_environ) env_ok.

(** The events of an archive that completes. *)
Definition archive_events (body bucket key : string) : list Event :=
  [Log ("Trying to upload .csv to " +:+ bucket);
   PutObject body bucket key;
   Log ("CSV uploaded to " +:+ bucket +:+ " successfully")].

(** The events of a connection accepted at the first attempt. *)
Definition connect_events (region_name secret_name : string) (cfg : Config) : list Event :=
  [GetSecretValue region_name secret_name;
   Log "Trying to connect to MySQL, attempt 1";
   Connect cfg;
   Log "Connected to MySQL!"].

(** The events of a load that completes, and of the closing of the
    connection after it. *)
Definition insert_events (cnx : Cnx) (table : string) (ps : list Params) : list Event :=
  Cursor cnx :: map (Execute cnx (insert_query table)) ps
  ++ [Commit cnx; CursorClose cnx; CnxClose cnx].

(** The name of the secret is not configured. *)
Definition env_no_secret_name : Env :=
  with_environ (delete "SECRET_NAME" sample_environ) env_ok.
(** * Properties *)

(** ** The monad *)

Lemma bind_Return {A B} (m : M A) (k : A -> M B) w w' a :
  m w = (w', Return a) -> bind m k w = k a w'.
Proof. intros H. unfold bind. rewrite H. reflexivity. Qed.

Lemma bind_Raise {A B} (m : M A) (k : A -> M B) w w' e :
  m w = (w', Raise e) -> bind m k w = (w', Raise e).
Proof. intros H. unfold bind. rewrite H. reflexivity. Qed.

Lemma heap_pure_ret {A} (a : A) : heap_pure (ret a).
Proof. intros w. reflexivity. Qed.

Lemma heap_pure_raise {A} e : heap_pure (@raise A e).
Proof. intros w. reflexivity. Qed.

Lemma heap_pure_lift {A} (r : Result A) : heap_pure (lift r).
Proof. intros w. reflexivity. Qed.

Lemma heap_pure_emit ev : heap_pure (emit ev).
Proof. intros w. reflexivity. Qed.

Lemma heap_pure_get_trace : heap_pure get_trace.
Proof. intros w. reflexivity. Qed.

Lemma heap_pure_load l : heap_pure (load l).
Proof. intros w. unfold load. destruct (heap w !! l); reflexivity. Qed.

Lemma heap_pure_bind {A B} (m : M A) (k : A -> M B) :
  heap_pure m -> (forall a, heap_pure (k a)) -> heap_pure (bind m k).
Proof.
  intros Hm Hk w. unfold bind. specialize (Hm w).
  destruct (m w) as [w1 [a|e]]; simpl in *.
  - rewrite Hk. exact Hm.
  - exact Hm.
Qed.

Lemma heap_pure_try_except {A} (m : M A) (h : Exn -> option (M A)) :
  heap_pure m -> (forall e k, h e = Some k -> heap_pure k) ->
  heap_pure (try_except m h).
Proof.
  intros Hm Hh w. unfold try_except. specialize (Hm w).
  destruct (m w) as [w1 [a|e]]; simpl in *; [exact Hm|].
  destruct (h e) as [k|] eqn:E; simpl; [|exact Hm].
  rewrite (Hh _ _ E). exact Hm.
Qed.

Create HintDb heap_pure.
#[export] Hint Resolve heap_pure_ret heap_pure_raise heap_pure_lift heap_pure_emit
  heap_pure_get_trace heap_pure_load : heap_pure.

Ltac heap_pure_step :=
  first [ apply heap_pure_bind; [|intros ?]
        | solve [auto with heap_pure] ].

Lemma heap_pure_os_environ env k : heap_pure (os_environ env k).
Proof. unfold os_environ. destruct (environ env !! k); auto with heap_pure. Qed.
#[export] Hint Resolve heap_pure_os_environ : heap_pure.

Lemma heap_pure_execute_call env cnx q p : heap_pure (execute_call env cnx q p).
Proof. unfold execute_call. repeat heap_pure_step. Qed.
#[export] Hint Resolve heap_pure_execute_call : heap_pure.

Lemma heap_pure_insert_rows env cnx q its : heap_pure (insert_rows env cnx q its).
Proof.
  induction its as [|[idx row] its IH]; simpl; [auto with heap_pure|].
  repeat heap_pure_step.
Qed.
#[export] Hint Resolve heap_pure_insert_rows : heap_pure.

Lemma heap_pure_insert_data env cnx data : heap_pure (insert_data env cnx data).
Proof. unfold insert_data. repeat heap_pure_step. Qed.

Lemma heap_pure_save_in_bucket env data : heap_pure (save_in_bucket env data).
Proof. unfold save_in_bucket. repeat heap_pure_step. Qed.

Lemma heap_pure_load_name locals x : heap_pure (load_name locals x).
Proof.
  unfold load_name. destruct (assoc x locals); [auto with heap_pure|].
  destruct (existsb _ _); auto with heap_pure.
Qed.
#[export] Hint Resolve heap_pure_load_name : heap_pure.

Lemma heap_pure_connect_loop env fuel cfg attempts delay attempt :
  heap_pure (connect_loop env fuel cfg attempts delay attempt).
Proof.
  revert attempt. induction fuel as [|fuel IH]; intros attempt; simpl.
  - auto with heap_pure.
  - destruct (attempt <? attempts + 1)%Z; [|auto with heap_pure].
    apply heap_pure_try_except.
    + unfold connect_call. repeat heap_pure_step.
    + intros e k Hk. destruct (is_mysql_or_io e); [|discriminate].
      injection Hk as <-.
      destruct (attempt =? attempts)%Z; repeat heap_pure_step.
Qed.

Lemma heap_pure_connect_to_mysql env attempts delay :
  heap_pure (connect_to_mysql env attempts delay).
Proof.
  unfold connect_to_mysql, get_secret. repeat heap_pure_step.
  apply heap_pure_connect_loop.
Qed.

(** ** The handler *)


Lemma lambda_handler_with_unfold env connect w :
  lambda_handler_with env connect w =
  match get_market_value env w with
  | (w1, Return data) => after_fetch env connect data w1
  | (w1, Raise e) => (w1, Raise e)
  end.
Proof.
  unfold lambda_handler_with, try_except, after_fetch.
  unfold bind at 1.
  destruct (get_market_value env w) as [w1 [data|e]]; [|reflexivity].
  match goal with |- match ?x with _ => _ end = _ => destruct x as [w2 [v|e]] end;
    reflexivity.
Qed.

Lemma heap_pure_after_fetch env connect data :
  heap_pure connect -> heap_pure (after_fetch env connect data).
Proof.
  intros Hc. unfold after_fetch.
  apply heap_pure_bind; [apply heap_pure_save_in_bucket|intros _].
  apply heap_pure_bind; [exact Hc|intros [cnx|]]; [|auto with heap_pure].
  apply heap_pure_bind; [apply heap_pure_insert_data|intros _].
  repeat heap_pure_step.
Qed.

(** The handler returns Python's [None] whenever the connection step
    hands back no connection: the [return] of the response sits inside
    [if cnx is not None]. *)
Lemma lambda_handler_with_no_connection env connect w w1 data w2 w3 :
  get_market_value env w = (w1, Return data) ->
  save_in_bucket env data w1 = (w2, Return tt) ->
  connect w2 = (w3, Return None) ->
  lambda_handler_with env connect w = (w3, Return PyNone).
Proof.
  intros Hf Hs Hc. rewrite lambda_handler_with_unfold, Hf.
  unfold after_fetch. rewrite (bind_Return _ _ _ _ _ Hs).
  rewrite (bind_Return _ _ _ _ _ Hc). reflexivity.
Qed.


(** C4: an error raised by any step of the pipeline (fetch, archive,
    connect, insert, and the closing of the connection) ends the run at
    that point and comes out of [lambda_handler] as that same error; and
    whenever the handler returns a response, its status code is 200. *)
Theorem lambda_handler_propagates_errors env w :
  (forall e w', step_raises env w e w' -> lambda_handler env w = (w', Raise e)) /\
  (forall w' code body,
      lambda_handler env w = (w', Return (Response code body)) -> code = 200%Z).
Proof.
  split.
  - intros e w' H. unfold lambda_handler. rewrite lambda_handler_with_unfold.
    destruct H as [Hf|w1 data Hf Hs|w1 data w2 u Hf Hs Hc
                   |w1 data w2 u w3 cnx Hf Hs Hc Hi
                   |w1 data w2 u w3 cnx w4 u' Hf Hs Hc Hi Hx];
      rewrite Hf; try reflexivity; unfold after_fetch.
    + rewrite (bind_Raise _ _ _ _ _ Hs). reflexivity.
    + rewrite (bind_Return _ _ _ _ _ Hs), (bind_Raise _ _ _ _ _ Hc). reflexivity.
    + rewrite (bind_Return _ _ _ _ _ Hs), (bind_Return _ _ _ _ _ Hc),
        (bind_Raise _ _ _ _ _ Hi). reflexivity.
    + rewrite (bind_Return _ _ _ _ _ Hs), (bind_Return _ _ _ _ _ Hc),
        (bind_Return _ _ _ _ _ Hi).
      unfold bind in Hx |- *.
      destruct (emit (CnxClose cnx) w4) as [w5 [[]|e5]]; [|congruence].
      destruct (lift (cnx_close env cnx) w5) as [w6 [[]|e6]]; congruence.
  - intros w' code body H. unfold lambda_handler in H.
    rewrite lambda_handler_with_unfold in H.
    destruct (get_market_value env w) as [w1 [data|e]]; [|discriminate].
    unfold after_fetch, bind in H.
    destruct (save_in_bucket env data w1) as [w2 [u|e]]; [|discriminate].
    destruct (connect_to_mysql env 3 2 w2) as [w3 [[cnx|]|e]]; try discriminate.
    destruct (insert_data env cnx data w3) as [w4 [u'|e]]; [|discriminate].
    destruct (emit (CnxClose cnx) w4) as [w5 [u5|e]]; [|discriminate].
    destruct (lift (cnx_close env cnx) w5) as [w6 [u6|e]]; [|discriminate].
    unfold ret in H. congruence.
Qed.

Lemma lambda_handler_propagates_errors_witness :
  step_raises env_provider_down init_world (ExternalError "connection reset")
    (fst (lambda_handler env_provider_down init_world)) /\
  lambda_handler env_provider_down init_world
  = (fst (lambda_handler env_provider_down init_world),
     Raise (ExternalError "connection reset")) /\
  lambda_handler env_ok init_world
  = (fst (lambda_handler env_ok init_world),
     Return (Response 200 (json_dumps "Data scrapped successfully!"))).
Proof.
  assert (Hs : step_raises env_provider_down init_world
                 (ExternalError "connection reset")
                 (fst (lambda_handler env_provider_down init_world))).
  { apply fetch_raises. vm_compute. reflexivity. }
  split; [exact Hs|]. split.
  - exact (proj1 (lambda_handler_propagates_errors env_provider_down init_world) _ _ Hs).
  - vm_compute. reflexivity.
Defined.

(** C9: neither [save_in_bucket] nor [insert_data] changes any data
    frame, so the frame returned by [get_market_value] is, at the end of
    the run, the frame the fetch produced. *)
Theorem quote_records_unmodified env :
  (forall data w, heap (fst (save_in_bucket env data w)) = heap w) /\
  (forall cnx data w, heap (fst (insert_data env cnx data w)) = heap w) /\
  (forall w w1 data df,
      get_market_value env w = (w1, Return data) ->
      heap w1 !! data = Some df ->
      heap (fst (lambda_handler env w)) !! data = Some df).
Proof.
  split; [|split].
  - intros data w. apply heap_pure_save_in_bucket.
  - intros cnx data w. apply heap_pure_insert_data.
  - intros w w1 data df Hf Hd. unfold lambda_handler.
    rewrite lambda_handler_with_unfold, Hf.
    rewrite (heap_pure_after_fetch env _ data (heap_pure_connect_to_mysql env 3 2) w1).
    exact Hd.
Qed.

Lemma quote_records_unmodified_witness :
  get_market_value env_ok init_world
  = (fst (get_market_value env_ok init_world), Return 0) /\
  (exists df,
      heap (fst (get_market_value env_ok init_world)) !! 0 = Some df /\
      heap (fst (lambda_handler env_ok init_world)) !! 0 = Some df).
Proof.
  split; [vm_compute; reflexivity|].
  eexists. split; [vm_compute; reflexivity|].
  apply (proj2 (proj2 (quote_records_unmodified env_ok)) init_world
           (fst (get_market_value env_ok init_world)) 0);
    vm_compute; reflexivity.
Defined.

(** ** The connection loop *)

(** The name [attemps] read by the retry message is bound nowhere. *)
Lemma load_name_attemps locals w :
  assoc "attemps" locals = None ->
  load_name locals "attemps" w = (w, Raise (NameError "attemps")).
Proof. intros H. unfold load_name. rewrite H. reflexivity. Qed.

Lemma count_app p tr1 tr2 : count p (tr1 ++ tr2) = count p tr1 + count p tr2.
Proof. unfold count. rewrite List.filter_app, length_app. reflexivity. Qed.

(** One pass through the loop body when more than one attempt is
    allowed: the connection is returned, or the first refusal caught by
    the [except] clause ends in [NameError] before any sleep. *)
Lemma connect_loop_first_pass env fuel cfg attempts delay attempt w :
  (attempt < attempts)%Z ->
  connect_loop env (S fuel) cfg attempts delay attempt w =
  let tr := trace w ++ [Log ("Trying to connect to MySQL, attempt " +:+ pretty attempt);
                        Connect cfg] in
  match mysql_connect env (count is_connect (trace w)) cfg with
  | Return cnx =>
      ({| heap := heap w; trace := tr ++ [Log "Connected to MySQL!"] |},
       Return (Some cnx))
  | Raise e =>
      ({| heap := heap w; trace := tr |},
       Raise (if is_mysql_or_io e then NameError "attemps" else e))
  end.
Proof.
  intros Hlt. simpl.
  destruct (Z.ltb_spec attempt (attempts + 1)) as [_|]; [|lia].
  unfold try_except, bind, emit, connect_call, get_trace, lift, ret, bind; simpl.
  rewrite count_app; simpl; rewrite Nat.add_0_r.
  destruct (mysql_connect env _ cfg) as [cnx|e]; simpl.
  - rewrite <- !app_assoc. reflexivity.
  - rewrite <- !app_assoc. simpl.
    destruct (is_mysql_or_io e); [|reflexivity].
    destruct (Z.eqb_spec attempt attempts) as [|_]; [lia|].
    reflexivity.
Qed.

(** The loop ends within the iterations its condition allows: fuel
    beyond [attempts + 1 - attempt] changes nothing. *)
Lemma connect_loop_fuel env cfg attempts delay fuel attempt :
  Z.to_nat (attempts + 1 - attempt) <= fuel ->
  connect_loop env fuel cfg attempts delay attempt
  = connect_loop env (Z.to_nat (attempts + 1 - attempt)) cfg attempts delay attempt.
Proof.
  revert attempt. induction fuel as [|fuel IH]; intros attempt Hle.
  - replace (Z.to_nat (attempts + 1 - attempt)) with 0 by lia. reflexivity.
  - destruct (Z.ltb_spec attempt (attempts + 1)) as [Hlt|Hge].
    + replace (Z.to_nat (attempts + 1 - attempt))
        with (S (Z.to_nat (attempts + 1 - (attempt + 1)))) by lia.
      simpl. rewrite (IH (attempt + 1)%Z) by lia. reflexivity.
    + replace (Z.to_nat (attempts + 1 - attempt)) with 0 by lia.
      simpl. destruct (Z.ltb_spec attempt (attempts + 1)); [lia|reflexivity].
Qed.

(** On the last attempt allowed, a refusal caught by the [except]
    clause is logged and the loop returns [None]. *)
Lemma connect_loop_last_attempt env fuel cfg attempts delay w e :
  mysql_connect env (count is_connect (trace w)) cfg = Raise e ->
  is_mysql_or_io e = true ->
  connect_loop env (S fuel) cfg attempts delay attempts w
  = ({| heap := heap w;
        trace := trace w ++ [Log ("Trying to connect to MySQL, attempt " +:+ pretty attempts);
                             Connect cfg;
                             Log ("Failed to connect, exiting without a connection: "
                                  +:+ str_of_exn e)] |},
     Return None).
Proof.
  intros Hc He. simpl.
  destruct (Z.ltb_spec attempts (attempts + 1)) as [_|]; [|lia].
  unfold try_except, bind, emit, connect_call, get_trace, lift, ret, bind; simpl.
  rewrite count_app; simpl; rewrite Nat.add_0_r. rewrite Hc. simpl. rewrite He.
  rewrite Z.eqb_refl. simpl. rewrite <- !app_assoc. reflexivity.
Qed.

(** With the default arguments the loop body is entered once: the first
    answer of the connector decides the outcome, no sleep is ever
    requested, and [None] is never returned. *)
Lemma connect_to_mysql_default env w w1 secret :
  get_secret env w = (w1, Return secret) ->
  let cfg := {| user := secret !! "username"; password := secret !! "password";
                host := secret !! "host"; database := secret !! "dbname";
                port := secret !! "port"; raise_on_warnings := true |} in
  let tr := trace w1 ++ [Log "Trying to connect to MySQL, attempt 1"; Connect cfg] in
  connect_to_mysql env 3 2 w =
  match mysql_connect env (count is_connect (trace w1)) cfg with
  | Return cnx =>
      ({| heap := heap w1; trace := tr ++ [Log "Connected to MySQL!"] |},
       Return (Some cnx))
  | Raise e =>
      ({| heap := heap w1; trace := tr |},
       Raise (if is_mysql_or_io e then NameError "attemps" else e))
  end.
Proof.
  intros Hs cfg tr. unfold connect_to_mysql.
  rewrite (bind_Return _ _ _ _ _ Hs).
  change (Z.to_nat (3 + 1 - 1)) with 3%nat.
  rewrite connect_loop_first_pass by lia. reflexivity.
Qed.

(** C1: when every connection attempt is refused (fetch and archive
    having succeeded), the run does not end on the success response:
    after the first refusal the retry message reads the unbound name
    [attemps] and the handler re-raises the resulting [NameError]. *)
Theorem lambda_handler_database_down :
  snd (lambda_handler env_db_down init_world) = Raise (NameError "attemps") /\
  count is_put_object (trace (fst (lambda_handler env_db_down init_world))) = 1 /\
  count is_connect (trace (fst (lambda_handler env_db_down init_world))) = 1 /\
  count is_sleep (trace (fst (lambda_handler env_db_down init_world))) = 0.
Proof. vm_compute. repeat split. Qed.

(** C2: with a connector that refuses twice and would accept the third
    attempt, [connect_to_mysql] (attempts 3, delay 2) makes one attempt,
    requests no sleep and raises [NameError] for the unbound name
    [attemps] of the retry message; no connection is returned. *)
Theorem connect_to_mysql_flaky_connector :
  connect_to_mysql env_db_flaky 3 2 init_world =
  ({| heap := ∅;
      trace := [GetSecretValue "us-east-1" "secret";
                Log "Trying to connect to MySQL, attempt 1";
                Connect {| user := Some "admin"; password := Some "pw";
                           host := Some "db"; database := Some "market";
                           port := Some "3306"; raise_on_warnings := true |}] |},
   Raise (NameError "attemps")).
Proof. vm_compute. reflexivity. Qed.

(** ** The database writer *)

Lemma world_eta w : {| heap := heap w; trace := trace w |} = w.
Proof. destruct w; reflexivity. Qed.

Lemma insert_rows_run env cnx q its ps w :
  Forall2 (fun it p => row_params (snd it) = Return p) its ps ->
  (forall n q p, cursor_execute env n cnx q p = Return tt) ->
  insert_rows env cnx q its w
  = ({| heap := heap w; trace := trace w ++ map (Execute cnx q) ps |}, Return tt).
Proof.
  intros H Hex. revert w.
  induction H as [|[idx row] p its ps Hp _ IH]; intros w; simpl.
  - rewrite app_nil_r, world_eta. reflexivity.
  - simpl in Hp. unfold bind at 1. unfold lift at 1. rewrite Hp.
    unfold bind at 1. unfold execute_call, bind, get_trace, emit, lift.
    rewrite Hex. rewrite IH. simpl. rewrite <- app_assoc. reflexivity.
Qed.

(** The values bound by an insert are the date, the symbol, the price
    and the volume of the row, in that order. *)
Lemma row_params_fields row d s p v :
  row_params row = Return (d, s, p, v) ->
  (exists t, field_value FDate row = Return (VTimestamp t) /\ ts_datetime t = d) /\
  field_value FSymbol row = Return s /\
  field_value FPrice row = Return p /\
  field_value FVolume row = Return v.
Proof.
  unfold row_params, field_value; simpl. intros H.
  destruct (Pandas.series_get "fecha" row) as [fv|]; [|discriminate].
  destruct fv as [t| | |]; simpl in H; try discriminate.
  destruct (Pandas.series_get "moneda" row) as [s'|]; [|discriminate].
  destruct (Pandas.series_get "cotizacion" row) as [p'|]; [|discriminate].
  destruct (Pandas.series_get "volumen" row) as [v'|]; [|discriminate].
  injection H as <- <- <- <-.
  split; [eexists; split; reflexivity|repeat split].
Qed.

Lemma row_params_binds row p : row_params row = Return p -> binds_record row p.
Proof.
  destruct p as [[[d s] pr] v]. intros H.
  apply row_params_fields in H as ((t & Hf & <-) & Hs & Hp & Hv).
  exists t, s, pr, v. auto.
Qed.

(** C7: on a connection whose calls succeed, [insert_data] opens a
    cursor, executes the parameterized insert once per record, in the
    order of the collection, binding the date, the symbol, the price and
    the volume of the record in that order, then commits once and closes
    the cursor. *)
Theorem insert_data_one_insert_per_record env cnx data w df table ps :
  environ env !! "DB_TABLE_NAME" = Some table ->
  heap w !! data = Some df ->
  db_accepts env cnx ->
  Forall2 (fun it p => row_params (snd it) = Return p) (Pandas.iterrows df) ps ->
  insert_data env cnx data w
  = ({| heap := heap w;
        trace := trace w ++ [Cursor cnx]
                         ++ map (Execute cnx (insert_query table)) ps
                         ++ [Commit cnx; CursorClose cnx] |}, Return tt)
  /\ length ps = length (rows df)
  /\ Forall2 (fun it p => binds_record (snd it) p) (Pandas.iterrows df) ps.
Proof.
  intros Henv Hd (Hcur & Hex & Hcom & Hclo) Hps. split; [|split].
  - unfold insert_data, os_environ. rewrite Henv.
    unfold bind at 1. unfold ret at 1.
    unfold bind at 1. unfold emit at 1.
    unfold bind at 1. unfold lift at 1. rewrite Hcur.
    unfold bind at 1. unfold load at 1. simpl. rewrite Hd.
    unfold bind at 1.
    rewrite (insert_rows_run env cnx _ _ ps _ Hps Hex).
    unfold bind, emit, lift. simpl. rewrite Hcom, Hclo.
    rewrite <- !app_assoc. reflexivity.
  - apply Forall2_length in Hps. unfold Pandas.iterrows in Hps.
    rewrite length_map in Hps. symmetry. exact Hps.
  - eapply Forall2_impl; [exact Hps|]. intros it p. apply row_params_binds.
Qed.

Lemma insert_data_one_insert_per_record_witness :
  exists w df ps,
    get_market_value env_ok init_world = (w, Return 0) /\
    heap w !! 0 = Some df /\
    length ps = 5 /\
    insert_data env_ok 5 0 w
    = ({| heap := heap w;
          trace := trace w ++ [Cursor 5]
                           ++ map (Execute 5 (insert_query "cotizaciones")) ps
                           ++ [Commit 5; CursorClose 5] |}, Return tt).
Proof.
  eexists _, _, [_; _; _; _; _].
  split; [vm_compute; reflexivity|].
  split; [vm_compute; reflexivity|].
  split; [reflexivity|].
  refine (proj1 (insert_data_one_insert_per_record env_ok 5 0 _ _ "cotizaciones" _ _ _ _ _)).
  - vm_compute; reflexivity.
  - vm_compute; reflexivity.
  - repeat split.
  - vm_compute. repeat constructor.
Defined.

(** ** The fetcher *)

Lemma requested_app tr1 tr2 : requested (tr1 ++ tr2) = requested tr1 ++ requested tr2.
Proof. unfold requested. apply flat_map_app. Qed.

(** One iteration of the loop: a request for [moneda] over one day at
    daily granularity, then the reshaping of the answer. *)
Lemma ticker_frame_run env moneda w :
  ticker_frame env moneda w =
  let tr := trace w ++ [Log ("Getting " +:+ moneda +:+ " data"); Download moneda "1d" "1d"] in
  match yf_download env (count is_download (trace w)) moneda with
  | Raise e => ({| heap := heap w; trace := tr |}, Raise e)
  | Return df =>
      ({| heap := heap w; trace := tr ++ [Log ("Downloaded " +:+ moneda +:+ " data")] |},
       shape_frame moneda df)
  end.
Proof.
  unfold ticker_frame, download_call, bind, emit, get_trace, lift; simpl.
  rewrite count_app; simpl; rewrite Nat.add_0_r.
  destruct (yf_download env _ moneda) as [df|e]; simpl.
  - rewrite <- !app_assoc. simpl. destruct (shape_frame moneda df); reflexivity.
  - rewrite <- !app_assoc. reflexivity.
Qed.

Lemma ticker_frame_requested env moneda w :
  requested (trace (fst (ticker_frame env moneda w))) = requested (trace w) ++ [moneda]
  /\ heap (fst (ticker_frame env moneda w)) = heap w.
Proof.
  rewrite ticker_frame_run. simpl.
  destruct (yf_download env _ moneda) as [df|e]; simpl;
    rewrite ?requested_app; simpl; rewrite ?app_nil_r; auto.
Qed.

(** The requests of the loop are a prefix of the tickers, and all of
    them when the loop completes. *)
Lemma ticker_loop_requested env ts d w :
  exists k,
    requested (trace (fst (ticker_loop env ts d w))) = requested (trace w) ++ take k ts /\
    heap (fst (ticker_loop env ts d w)) = heap w /\
    (forall d', snd (ticker_loop env ts d w) = Return d' -> k = length ts).
Proof.
  revert d w. induction ts as [|t ts IH]; intros d w; simpl.
  - exists 0. rewrite app_nil_r. auto.
  - unfold bind.
    destruct (ticker_frame_requested env t w) as [Hr Hh].
    destruct (ticker_frame env t w) as [w1 [df|e]]; simpl in *.
    + destruct (IH (dict_set t df d) w1) as (k & Hk & Hh' & Hret).
      exists (S k). simpl. rewrite Hk, Hr, <- app_assoc. simpl.
      split; [reflexivity|]. split; [congruence|].
      intros d' Hd'. f_equal. eauto.
    + exists 1. simpl. rewrite take_0. split; [exact Hr|]. split; [exact Hh|].
      discriminate.
Qed.

(** C10: [get_market_value] has no parameter besides the collaborators;
    its tickers are the five fixed symbols, in order.  The instruments
    requested in a run are a prefix of that list (a failing request ends
    the fetch) and exactly that list whenever the fetch returns. *)
Theorem get_market_value_fixed_tickers env w :
  tickers = ["BTC-USD"; "ETH-USD"; "^GSPC"; "^IXIC"; "GC=F"] /\
  (exists k, requested (trace (fst (get_market_value env w)))
             = requested (trace w) ++ take k tickers) /\
  (forall data, snd (get_market_value env w) = Return data ->
     requested (trace (fst (get_market_value env w)))
     = requested (trace w) ++ ["BTC-USD"; "ETH-USD"; "^GSPC"; "^IXIC"; "GC=F"]).
Proof.
  split; [reflexivity|].
  unfold get_market_value, get_market_value_of.
  destruct (ticker_loop_requested env tickers [] w) as (k & Hk & Hh & Hret).
  unfold bind.
  destruct (ticker_loop env tickers [] w) as [w1 [d|e]]; simpl in *.
  - assert (Ek : k = length tickers) by eauto. subst k.
    unfold lift, alloc.
    destruct (Pandas.concat_ignore_index (map snd d)) as [m|e]; simpl;
      (split; [exists (length tickers); exact Hk|]); intros; exact Hk.
  - split; [exists k; exact Hk|]. discriminate.
Qed.

Lemma get_market_value_fixed_tickers_witness :
  snd (get_market_value env_ok init_world) = Return 0 /\
  requested (trace (fst (get_market_value env_ok init_world)))
  = ["BTC-USD"; "ETH-USD"; "^GSPC"; "^IXIC"; "GC=F"].
Proof.
  split; [vm_compute; reflexivity|].
  apply (proj2 (proj2 (get_market_value_fixed_tickers env_ok init_world)) 0).
  vm_compute; reflexivity.
Defined.

Lemma zip_with_map_map {A B C D} (g : B -> C -> D) (f : A -> B) (h : A -> C) l :
  zip_with g (map f l) (map h l) = map (fun x => g (f x) (h x)) l.
Proof. induction l as [|x l IH]; simpl; [reflexivity|]. rewrite IH. reflexivity. Qed.

Lemma zip_with_repeat {A B C} (g : A -> B -> C) (v : B) l :
  zip_with g l (repeat v (length l)) = map (fun x => g x v) l.
Proof. induction l as [|x l IH]; simpl; [reflexivity|]. rewrite IH. reflexivity. Qed.

Lemma getitem_list_reorder rs :
  Pandas.getitem_list ["fecha"; "cotizacion"; "volumen"; "moneda"]
    {| columns := ["cotizacion"; "volumen"; "fecha"; "moneda"]; rows := rs |}
  = Return {| columns := ["fecha"; "cotizacion"; "volumen"; "moneda"];
              rows := map (fun ir => (fst ir, Pandas.take_cells [2; 0; 1; 3] (snd ir))) rs |}.
Proof. reflexivity. Qed.

(** What the reshaping makes of a provider answer: one record per bar,
    in the order of the bars, with the label of the bar as date and the
    ticker as symbol. *)
Lemma shape_frame_spec moneda df df' :
  shape_frame moneda df = Return df' ->
  exists p1 p2,
    df' = {| columns := ["fecha"; "cotizacion"; "volumen"; "moneda"];
             rows := map (fun ir => (fst ir, [fst ir; nth p1 (snd ir) NaN;
                                              nth p2 (snd ir) NaN; VStr moneda]))
                         (rows df) |}.
Proof.
  unfold shape_frame, Pandas.getitem_list at 1.
  rewrite !filter_cons, filter_nil. simpl flat_map.
  destruct (Pandas.positions "Adj Close" (columns df)) as [|p1 PA];
    [case_decide; [discriminate|congruence]|].
  case_decide; [discriminate|].
  destruct (Pandas.positions "Volume" (columns df)) as [|p2 PV];
    [case_decide; [discriminate|congruence]|].
  case_decide; [discriminate|].
  unfold Pandas.set_columns. cbn [columns rows].
  destruct PA as [|? PA]; [|destruct PA; destruct PV; discriminate].
  destruct PV as [|? PV]; [|discriminate].
  simpl. intros Hs. exists p1, p2.
  unfold Pandas.setitem_scalar, Pandas.setitem, index in Hs. simpl in Hs.
  rewrite map_map in Hs. simpl in Hs.
  rewrite zip_with_map_map, zip_with_repeat, getitem_list_reorder in Hs.
  rewrite !map_map in Hs. simpl in Hs. injection Hs as <-. reflexivity.
Qed.

Lemma shape_frame_columns moneda df df' :
  shape_frame moneda df = Return df' ->
  columns df' = ["fecha"; "cotizacion"; "volumen"; "moneda"].
Proof. intros (p1 & p2 & ->)%shape_frame_spec. reflexivity. Qed.

Lemma shape_frame_length moneda df df' :
  shape_frame moneda df = Return df' -> length (rows df') = length (rows df).
Proof. intros (p1 & p2 & ->)%shape_frame_spec. simpl. apply length_map. Qed.

Lemma dict_set_keys {V} k (v : V) d :
  map fst (dict_set k v d)
  = if existsb (fun kv => String.eqb (fst kv) k) d then map fst d else map fst d ++ [k].
Proof.
  unfold dict_set. destruct (existsb _ d).
  - rewrite map_map. apply map_ext. intros [k' v']; simpl.
    destruct (String.eqb_spec k' k); simpl; congruence.
  - rewrite map_app. reflexivity.
Qed.

Lemma dict_set_Forall {V} (P : string * V -> Prop) k v d :
  P (k, v) -> Forall P d -> Forall P (dict_set k v d).
Proof.
  intros Hkv Hd. unfold dict_set. destruct (existsb _ d).
  - induction Hd as [|[k' v'] d Hx _ IH]; simpl; constructor; auto.
    destruct (String.eqb k' k); auto.
  - apply Forall_app. auto.
Qed.

Lemma dict_set_keys_sublist {V} k (v : V) d done :
  map fst d `sublist_of` done -> map fst (dict_set k v d) `sublist_of` done ++ [k].
Proof.
  intros H. rewrite dict_set_keys. destruct (existsb _ d).
  - apply sublist_inserts_r. exact H.
  - apply sublist_app; [exact H|reflexivity].
Qed.

(** The dictionary built by the loop: under each key a frame of quotes
    of that instrument, with as many records as the bars of an answer
    of the provider for it; its keys follow the order of the tickers
    processed. *)
Lemma ticker_loop_dict env ts d w w' d' :
  ticker_loop env ts d w = (w', Return d') ->
  Forall (fun kv => quotes_of (fst kv) (snd kv)
                    /\ answered env (fst kv) (length (rows (snd kv)))) d ->
  Forall (fun kv => quotes_of (fst kv) (snd kv)
                    /\ answered env (fst kv) (length (rows (snd kv)))) d' /\
  (forall done, map fst d `sublist_of` done -> map fst d' `sublist_of` done ++ ts).
Proof.
  revert d w. induction ts as [|t ts IH]; intros d w Hrun Hd; simpl in Hrun.
  - injection Hrun as _ <-. split; [exact Hd|]. intros done. rewrite app_nil_r. auto.
  - unfold bind in Hrun. rewrite ticker_frame_run in Hrun. simpl in Hrun.
    destruct (yf_download env _ t) as [df0|e] eqn:Hdl; [|discriminate].
    destruct (shape_frame t df0) as [df|e] eqn:Hsh; [|discriminate].
    apply IH in Hrun as [Hd' Hkeys].
    + split; [exact Hd'|]. intros done Hdone.
      replace (done ++ t :: ts) with ((done ++ [t]) ++ ts)
        by (rewrite <- app_assoc; reflexivity).
      apply Hkeys, dict_set_keys_sublist, Hdone.
    + apply dict_set_Forall; [|exact Hd]. simpl. split.
      * destruct (shape_frame_spec _ _ _ Hsh) as (p1 & p2 & ->).
        split; [reflexivity|]. unfold cells; simpl. rewrite map_map. simpl.
        apply List.Forall_forall. intros r (ir & <- & _)%in_map_iff. eauto.
      * rewrite (shape_frame_length _ _ _ Hsh). eexists _, df0. eauto.
Qed.

Lemma union_labels_quote frames :
  Forall (fun df => columns df = quote_columns) frames ->
  foldl (fun seen df => Pandas.union_labels seen (columns df)) quote_columns frames
  = quote_columns.
Proof.
  induction 1 as [|df frames Hc _ IH]; simpl; [reflexivity|].
  rewrite Hc. exact IH.
Qed.

Lemma cells_imap {A} (g : nat -> A) (rs : list (list Value)) :
  map snd (imap (fun i r => (g i, r)) rs) = rs.
Proof.
  revert g. induction rs as [|r rs IH]; intros g; simpl; [reflexivity|].
  f_equal. apply (IH (g ∘ S)).
Qed.

Lemma reindex_rows_quote k rs :
  Forall (fun r => exists f c v, r = [f; c; v; VStr k]) rs ->
  map (Pandas.reindex_row quote_columns quote_columns) rs = rs.
Proof.
  induction 1 as [|r rs (f & c & v & ->) _ IH]; simpl; [reflexivity|].
  rewrite IH. reflexivity.
Qed.

(** Concatenating frames of quotes keeps the columns and puts the
    records of the frames one after the other. *)
Lemma concat_quote_frames (d : list (string * DataFrame)) :
  d <> [] ->
  Forall (fun kv => quotes_of (fst kv) (snd kv)) d ->
  exists merged,
    Pandas.concat_ignore_index (map snd d) = Return merged /\
    columns merged = quote_columns /\
    cells merged = flat_map (fun kv => cells (snd kv)) d.
Proof.
  intros Hne Hd. destruct d as [|[k0 df0] d]; [congruence|].
  eexists. split; [reflexivity|]. cbn [columns rows].
  assert (Hcols : foldl (fun seen df => Pandas.union_labels seen (columns df)) []
                    (map snd ((k0, df0) :: d)) = quote_columns).
  { simpl. inversion Hd as [|? ? [Hc0 _] Hd']; subst. simpl in Hc0. rewrite Hc0.
    apply union_labels_quote. apply List.Forall_forall. intros df (kv & <- & Hin)%in_map_iff.
    rewrite List.Forall_forall in Hd'. apply (Hd' kv Hin). }
  split; [exact Hcols|]. unfold cells at 1. cbn [rows].
  rewrite cells_imap, Hcols. clear Hcols Hne.
  induction Hd as [|[k df] d' [Hc Hr] _ IH]; [reflexivity|].
  cbn [map flat_map snd]. rewrite IH. simpl in Hc, Hr. rewrite Hc.
  rewrite (reindex_rows_quote k _ Hr). reflexivity.
Qed.







(** The frame returned by the fetch, for any list of tickers. *)
Lemma get_market_value_of_frame env ts w w' data :
  get_market_value_of env ts w = (w', Return data) ->
  exists d merged,
    heap w' !! data = Some merged /\
    columns merged = quote_columns /\
    cells merged = flat_map (fun kv => cells (snd kv)) d /\
    Forall (fun kv => quotes_of (fst kv) (snd kv)
                      /\ answered env (fst kv) (length (rows (snd kv)))) d /\
    map fst d `sublist_of` ts.
Proof.
  intros Hrun. unfold get_market_value_of, bind in Hrun.
  destruct (ticker_loop env ts [] w) as [w1 [d|e]] eqn:Hloop; [|discriminate].
  destruct (ticker_loop_dict env ts [] w w1 d Hloop (List.Forall_nil _)) as [Hd Hkeys].
  specialize (Hkeys [] (sublist_nil_l _)). simpl in Hkeys.
  unfold lift, alloc in Hrun.
  destruct (Pandas.concat_ignore_index (map snd d)) as [merged|e] eqn:Hcat; [|discriminate].
  injection Hrun as <- <-.
  assert (Hne : d <> []) by (intros ->; discriminate).
  destruct (concat_quote_frames d Hne) as (merged' & Hcat' & Hcols & Hcells).
  { eapply Forall_impl; [exact Hd|]. intros kv [H _]. exact H. }
  assert (merged' = merged) by congruence. subst merged'.
  exists d, merged. simpl. rewrite lookup_insert_eq. auto.
Qed.



(** ** Delimited text: reading back what was written *)

Section csv_roundtrip.
Import Csv.
#[local] Arguments String.append !_ _ / : simpl nomatch.

Lemma append_assoc (s1 s2 s3 : string) : (s1 +:+ s2) +:+ s3 = s1 +:+ (s2 +:+ s3).
Proof. induction s1 as [|c s1 IH]; simpl; [reflexivity|]. f_equal. exact IH. Qed.

Lemma append_nil_r (s : string) : s +:+ EmptyString = s.
Proof. induction s as [|c s IH]; simpl; [reflexivity|]. f_equal. exact IH. Qed.

Lemma special_false c :
  special c = false ->
  Ascii.eqb c comma = false /\ Ascii.eqb c dquote = false /\
  Ascii.eqb c LF = false /\ Ascii.eqb c CR = false.
Proof.
  unfold special. intros H.
  destruct (Ascii.eqb c comma), (Ascii.eqb c dquote), (Ascii.eqb c LF), (Ascii.eqb c CR);
    simpl in H; try discriminate; auto.
Qed.

(** Characters of a field written bare join the field one by one. *)
Lemma read_bare s fld row rest :
  needs_quote s = false ->
  read InField fld row (s +:+ rest) = read InField (fld +:+ s) row rest.
Proof.
  revert fld. induction s as [|c s IH]; intros fld Hq; simpl.
  - rewrite append_nil_r. reflexivity.
  - simpl in Hq. apply orb_false_iff in Hq as [Hc Hs].
    destruct (special_false c Hc) as (H1 & H2 & H3 & H4).
    rewrite H3, H4, H1. rewrite IH by exact Hs.
    rewrite append_assoc. reflexivity.
Qed.

(** A quoted field is read up to its closing quote, with doubled quotes
    read as one. *)
Lemma read_quoted s fld row rest :
  read InQuoted fld row (double_quotes s +:+ String dquote rest)
  = read QuoteInQuoted (fld +:+ s) row rest.
Proof.
  revert fld. induction s as [|c s IH]; intros fld; simpl.
  - rewrite append_nil_r. reflexivity.
  - destruct (Ascii.eqb c dquote) eqn:Hc; simpl.
    + apply Ascii.eqb_eq in Hc. subst c. rewrite IH, append_assoc. reflexivity.
    + rewrite Hc. rewrite IH, append_assoc. reflexivity.
Qed.

(** A written field followed by the delimiter. *)
Lemma read_field_comma f row rest :
  read StartField EmptyString row (write_field f +:+ String comma rest)
  = read StartField EmptyString (row ++ [f]) rest.
Proof.
  unfold write_field. destruct (needs_quote f) eqn:Hq.
  - change (String dquote (double_quotes f +:+ str1 dquote) +:+ String comma rest)
      with (String dquote ((double_quotes f +:+ str1 dquote) +:+ String comma rest)).
    rewrite append_assoc. simpl. rewrite read_quoted. reflexivity.
  - destruct f as [|c f]; [reflexivity|].
    simpl in Hq. apply orb_false_iff in Hq as [Hc Hs].
    destruct (special_false c Hc) as (H1 & H2 & H3 & H4).
    simpl. unfold start_field. rewrite H3, H4, H2, H1.
    rewrite read_bare by exact Hs. reflexivity.
Qed.

(** A written field followed by the line terminator. *)
Lemma read_field_LF f row rest :
  read StartField EmptyString row (write_field f +:+ String LF rest)
  = (row ++ [f]) :: read StartRecord EmptyString [] rest.
Proof.
  unfold write_field. destruct (needs_quote f) eqn:Hq.
  - change (String dquote (double_quotes f +:+ str1 dquote) +:+ String LF rest)
      with (String dquote ((double_quotes f +:+ str1 dquote) +:+ String LF rest)).
    rewrite append_assoc. simpl. rewrite read_quoted. reflexivity.
  - destruct f as [|c f]; [reflexivity|].
    simpl in Hq. apply orb_false_iff in Hq as [Hc Hs].
    destruct (special_false c Hc) as (H1 & H2 & H3 & H4).
    simpl. unfold start_field. rewrite H3, H4, H2, H1.
    rewrite read_bare by exact Hs. reflexivity.
Qed.

Lemma read_write_fields fs row rest :
  fs <> [] ->
  read StartField EmptyString row (write_fields fs +:+ rest)
  = (row ++ fs) :: read_csv rest.
Proof.
  revert row. induction fs as [|f fs IH]; intros row Hne; [congruence|].
  destruct fs as [|f2 fs].
  - simpl. rewrite append_assoc. simpl. apply read_field_LF.
  - change (write_fields (f :: f2 :: fs))
      with (write_field f +:+ str1 comma +:+ write_fields (f2 :: fs)).
    rewrite !append_assoc. simpl (str1 comma +:+ _).
    rewrite read_field_comma, IH by discriminate.
    rewrite <- app_assoc. reflexivity.
Qed.

(** At the start of a record, a character other than a line break is
    read as at the start of a field. *)
Lemma read_start_record c s fld row :
  Ascii.eqb c LF = false -> Ascii.eqb c CR = false ->
  read StartRecord fld row (String c s) = read StartField fld row (String c s).
Proof. intros H1 H2. simpl. rewrite H1, H2. reflexivity. Qed.

(** The first character written for a record that is neither empty nor
    a lone empty field is not a line break. *)
Lemma write_fields_head f fs rest :
  f <> EmptyString \/ fs <> [] ->
  exists c s, write_fields (f :: fs) +:+ rest = String c s /\
              Ascii.eqb c LF = false /\ Ascii.eqb c CR = false.
Proof.
  intros H.
  assert (Hf : exists s', write_fields (f :: fs) = write_field f +:+ s' /\
                          (fs <> [] -> exists s'', s' = String comma s'')).
  { destruct fs as [|f2 fs].
    - exists (str1 LF). split; [reflexivity|]. congruence.
    - exists (str1 comma +:+ write_fields (f2 :: fs)). split; [reflexivity|].
      intros _. eexists. reflexivity. }
  destruct Hf as (s' & -> & Hs'). rewrite append_assoc.
  unfold write_field. destruct (needs_quote f) eqn:Hq.
  - simpl. eexists _, _. split; [reflexivity|]. split; reflexivity.
  - destruct f as [|c f].
    + destruct H as [H|H]; [congruence|]. destruct (Hs' H) as (s'' & ->).
      simpl. eexists _, _. split; [reflexivity|]. split; reflexivity.
    + simpl in Hq. apply orb_false_iff in Hq as [Hc _].
      destruct (special_false c Hc) as (H1 & H2 & H3 & H4).
      simpl. eexists _, _. split; [reflexivity|]. split; assumption.
Qed.

Lemma read_write_row r rest :
  read_csv (write_row r +:+ rest) = r :: read_csv rest.
Proof.
  unfold read_csv.
  destruct r as [|f fs]; [reflexivity|].
  destruct (string_dec f EmptyString) as [->|Hf].
  - destruct fs as [|f2 fs]; [reflexivity|].
    change (write_row (EmptyString :: f2 :: fs)) with (write_fields (EmptyString :: f2 :: fs)).
    destruct (write_fields_head EmptyString (f2 :: fs) rest) as (c & s & E & H1 & H2);
      [right; discriminate|].
    rewrite E, read_start_record, <- E by assumption.
    apply (read_write_fields _ []). discriminate.
  - assert (Hw : write_row (f :: fs) = write_fields (f :: fs)).
    { destruct f; [congruence|reflexivity]. }
    rewrite Hw.
    destruct (write_fields_head f fs rest) as (c & s & E & H1 & H2); [left; exact Hf|].
    rewrite E, read_start_record, <- E by assumption.
    apply (read_write_fields _ []). discriminate.
Qed.

(** Reading back the rows written gives the rows. *)
Lemma read_write_rows rs : read_csv (write_rows rs) = rs.
Proof.
  induction rs as [|r rs IH]; [reflexivity|].
  simpl. rewrite read_write_row, IH. reflexivity.
Qed.

(** A field with the delimiter, a lone empty field, a record without
    fields, and fields with a quote or a line feed. *)
Example write_rows_quoting :
  write_rows [["a"; "b,c"; ""]; [""]; []; ["x" +:+ str1 dquote +:+ "y"; str1 LF]]
  = "a," +:+ str1 dquote +:+ "b,c" +:+ str1 dquote +:+ "," +:+ str1 LF
    +:+ str1 dquote +:+ str1 dquote +:+ str1 LF
    +:+ str1 LF
    +:+ str1 dquote +:+ "x" +:+ str1 dquote +:+ str1 dquote +:+ "y" +:+ str1 dquote
    +:+ "," +:+ str1 dquote +:+ str1 LF +:+ str1 dquote +:+ str1 LF.
Proof. reflexivity. Qed.

Example read_csv_lines :
  read_csv ("a,b" +:+ str1 CR +:+ str1 LF +:+ "c," +:+ str1 LF +:+ "d")
  = [["a"; "b"]; ["c"; ""]; ["d"]].
Proof. reflexivity. Qed.

End csv_roundtrip.

(** ** The archiver *)

Lemma archived_app tr1 tr2 : archived (tr1 ++ tr2) = archived tr1 ++ archived tr2.
Proof. unfold archived. apply flat_map_app. Qed.

Lemma events_of_app {A} (m : M A) w evs :
  trace (fst (m w)) = trace w ++ evs -> events_of m w = evs.
Proof. intros H. unfold events_of. rewrite H. apply drop_app_length. Qed.

(** The run of [save_in_bucket], step by step. *)
Lemma save_in_bucket_run env data w :
  save_in_bucket env data w =
  match environ env !! "BUCKET_DEST" with
  | None => (w, Raise (KeyError "BUCKET_DEST"))
  | Some bucket =>
  match heap w !! data with
  | None => (w, Raise (ExternalError "no such object"))
  | Some df =>
      let tr1 := trace w ++ [Log ("Trying to upload .csv to " +:+ bucket)] in
      match minus_one_day (now env) with
      | Raise e => ({| heap := heap w; trace := tr1 |}, Raise e)
      | Return yesterday =>
          let key := strftime_Ymd yesterday +:+ ".csv" in
          let tr2 := tr1 ++ [PutObject (to_csv env df) bucket key] in
          match put_object env (to_csv env df) bucket key with
          | Raise e => ({| heap := heap w; trace := tr2 |}, Raise e)
          | Return _ =>
              ({| heap := heap w;
                  trace := tr2 ++ [Log ("CSV uploaded to " +:+ bucket +:+ " successfully")] |},
               Return tt)
          end
      end
  end end.
Proof.
  unfold save_in_bucket, os_environ.
  destruct (environ env !! "BUCKET_DEST") as [bucket|]; [|reflexivity].
  unfold bind at 1. unfold ret at 1.
  unfold bind at 1. unfold load at 1.
  destruct (heap w !! data) as [df|]; [|reflexivity].
  unfold bind, emit, lift; simpl.
  destruct (minus_one_day (now env)) as [y|e]; [|reflexivity].
  destruct (put_object env _ bucket _) as [u|e]; reflexivity.
Qed.

(** What [save_in_bucket] puts to storage: at most one object, the
    text of the frame under the key of the day before the clock. *)
Lemma save_in_bucket_archived env data w :
  events_of (save_in_bucket env data) w = []
  \/ (exists e, archived (events_of (save_in_bucket env data) w) = []
                /\ snd (save_in_bucket env data w) = Raise e)
  \/ exists bucket df yesterday,
       environ env !! "BUCKET_DEST" = Some bucket /\
       heap w !! data = Some df /\
       minus_one_day (now env) = Return yesterday /\
       archived (events_of (save_in_bucket env data) w)
       = [(to_csv env df, bucket, strftime_Ymd yesterday +:+ ".csv")].
Proof.
  pose proof (save_in_bucket_run env data w) as Hrun.
  destruct (environ env !! "BUCKET_DEST") as [bucket|].
  2:{ left. unfold events_of. rewrite Hrun. simpl. apply drop_all. }
  destruct (heap w !! data) as [df|].
  2:{ left. unfold events_of. rewrite Hrun. simpl. apply drop_all. }
  right. simpl in Hrun.
  destruct (minus_one_day (now env)) as [y|e].
  2:{ left. exists e. rewrite Hrun. split; [|reflexivity].
      erewrite events_of_app; [|rewrite Hrun; reflexivity]. reflexivity. }
  right. exists bucket, df, y. repeat split.
  destruct (put_object env _ bucket _) as [u|e];
    (erewrite events_of_app; [|rewrite Hrun; simpl; rewrite <- ?app_assoc; reflexivity]);
    reflexivity.
Qed.

(** The text put to storage is the text of the frame. *)
Lemma archived_body env data w df body bucket key :
  heap w !! data = Some df ->
  In (body, bucket, key) (archived (events_of (save_in_bucket env data) w)) ->
  body = to_csv env df.
Proof.
  intros Hd Hin.
  destruct (save_in_bucket_archived env data w) as [H|[(e & H & _)|H]].
  - rewrite H in Hin. destruct Hin.
  - rewrite H in Hin. destruct Hin.
  - destruct H as (bucket' & df' & y & _ & Hd' & _ & H).
    rewrite H in Hin. destruct Hin as [Hin|[]].
    assert (df' = df) by congruence. subst df'.
    injection Hin as <- _ _. reflexivity.
Qed.



(** ** Field order *)

Lemma executed_app tr1 tr2 : executed (tr1 ++ tr2) = executed tr1 ++ executed tr2.
Proof. unfold executed. apply flat_map_app. Qed.

(** The inserts executed by the loop of [insert_data] bind, in order,
    the parameters of the first records of the collection (all of them
    unless a record or an insert fails). *)
Lemma insert_rows_executed env cnx q its w :
  exists ps,
    executed (trace (fst (insert_rows env cnx q its w))) = executed (trace w) ++ ps /\
    Forall2 (fun it p => row_params (snd it) = Return p) (take (length ps) its) ps.
Proof.
  revert w. induction its as [|[idx row] its IH]; intros w; simpl.
  - exists []. rewrite app_nil_r. split; [reflexivity|constructor].
  - unfold bind at 1. unfold lift at 1.
    destruct (row_params row) as [p|e] eqn:Hp; simpl.
    2:{ exists []. rewrite app_nil_r. split; [reflexivity|constructor]. }
    unfold bind at 1. unfold execute_call, bind, get_trace, emit, lift. simpl.
    destruct (cursor_execute env _ cnx q p) as [u|e]; simpl.
    + destruct (IH {| heap := heap w; trace := trace w ++ [Execute cnx q p] |})
        as (ps & Hex & Hps).
      exists (p :: ps). simpl in *. rewrite Hex, executed_app, <- app_assoc.
      split; [reflexivity|]. constructor; assumption.
    + exists [p]. rewrite executed_app. split; [reflexivity|].
      simpl. rewrite take_0. repeat constructor. exact Hp.
Qed.

Lemma insert_data_executed env cnx data w df :
  heap w !! data = Some df ->
  exists ps,
    executed (trace (fst (insert_data env cnx data w))) = executed (trace w) ++ ps /\
    Forall2 (fun it p => row_params (snd it) = Return p)
            (take (length ps) (Pandas.iterrows df)) ps.
Proof.
  intros Hd. unfold insert_data, os_environ.
  destruct (environ env !! "DB_TABLE_NAME") as [table|].
  2:{ exists []. simpl. rewrite app_nil_r. split; [reflexivity|constructor]. }
  unfold bind at 1. unfold ret at 1.
  unfold bind at 1. unfold emit at 1.
  unfold bind at 1. unfold lift at 1.
  destruct (cnx_cursor env cnx) as [u|e].
  2:{ exists []. simpl. rewrite executed_app. split; [reflexivity|constructor]. }
  unfold bind at 1. unfold load at 1. simpl. rewrite Hd.
  unfold bind at 1.
  match goal with |- context [insert_rows env cnx ?q ?its ?w1] =>
    destruct (insert_rows_executed env cnx q its w1) as (ps & Hex & Hps);
    destruct (insert_rows env cnx q its w1) as [w2 [u2|e2]] end;
    simpl in Hex; rewrite executed_app, app_nil_r in Hex.
  - exists ps. split; [|exact Hps].
    unfold bind, emit, lift. simpl.
    destruct (cnx_commit env cnx); simpl; [destruct (cursor_close env cnx); simpl|];
      rewrite ?executed_app, ?app_nil_r; simpl; rewrite ?app_nil_r; exact Hex.
  - exists ps. split; [exact Hex|exact Hps].
Qed.

(** C3, as stated, fails: the file archived by a run has its columns
    in the order date, price, volume, symbol. *)
Lemma archive_field_order_counterexample :
  ~ archive_in_record_order env_ok init_world.
Proof.
  unfold archive_in_record_order. intros H.
  vm_compute in H. inversion H as [|? ? Hhd _]. discriminate Hhd.
Qed.

(** C3, amended: the columns of the archived file are in the order
    date, price, volume, symbol (the order of the frame built by the
    fetch), and every insert executed binds date, symbol, price, volume
    of its record, in that order. *)
Theorem field_order_of_file_and_insert env w w1 data :
  get_market_value env w = (w1, Return data) ->
  exists df,
    heap w1 !! data = Some df /\
    map field_of_column (columns df) = [Some FDate; Some FPrice; Some FVolume; Some FSymbol] /\
    (forall w2 body bucket key,
        heap w2 !! data = Some df ->
        In (body, bucket, key) (archived (events_of (save_in_bucket env data) w2)) ->
        csv_field_order body = [Some FDate; Some FPrice; Some FVolume; Some FSymbol]) /\
    (forall cnx w2,
        heap w2 !! data = Some df ->
        exists ps,
          executed (trace (fst (insert_data env cnx data w2))) = executed (trace w2) ++ ps /\
          Forall2 (fun it p => binds_record (snd it) p)
                  (take (length ps) (Pandas.iterrows df)) ps).
Proof.
  intros Hrun.
  destruct (get_market_value_of_frame env tickers w w1 data Hrun)
    as (d & df & Hheap & Hcols & _).
  exists df. split; [exact Hheap|]. split; [rewrite Hcols; reflexivity|]. split.
  - intros w2 body bucket key Hd Hin.
    rewrite (archived_body env data w2 df body bucket key Hd Hin).
    unfold csv_field_order, to_csv. rewrite read_write_rows. simpl.
    rewrite Hcols. reflexivity.
  - intros cnx w2 Hd.
    destruct (insert_data_executed env cnx data w2 df Hd) as (ps & Hex & Hps).
    exists ps. split; [exact Hex|].
    eapply Forall2_impl; [exact Hps|]. intros it p. apply row_params_binds.
Qed.

Lemma field_order_of_file_and_insert_witness :
  exists w1 df,
    get_market_value env_ok init_world = (w1, Return 0) /\
    heap w1 !! 0 = Some df /\
    map field_of_column (columns df) = [Some FDate; Some FPrice; Some FVolume; Some FSymbol].
Proof.
  exists (fst (get_market_value env_ok init_world)).
  destruct (field_order_of_file_and_insert env_ok init_world
              (fst (get_market_value env_ok init_world)) 0) as (df & H1 & H2 & _).
  - vm_compute. reflexivity.
  - exists df. split; [vm_compute; reflexivity|]. split; assumption.
Defined.

(** ** The calendar *)

Section calendar_facts.
Local Open Scope Z_scope.

(** The Gregorian calendar repeats every 400 years, that is every
    146097 days. *)
Lemma is_leap_400 y : is_leap (y + 400) = is_leap y.
Proof.
  unfold is_leap.
  replace ((y + 400) mod 4) with (y mod 4) by (symmetry; apply (Z_mod_plus_full y 100 4)).
  replace ((y + 400) mod 100) with (y mod 100) by (symmetry; apply (Z_mod_plus_full y 4 100)).
  replace ((y + 400) mod 400) with (y mod 400) by (symmetry; apply (Z_mod_plus_full y 1 400)).
  reflexivity.
Qed.

Lemma days_before_year_400 y : days_before_year (y + 400) = days_before_year y + 146097.
Proof.
  unfold days_before_year. cbv zeta.
  replace (y + 400 - 1) with (y - 1 + 400) by lia.
  replace ((y - 1 + 400) / 4) with ((y - 1) / 4 + 100)
    by (symmetry; apply (Z_div_plus_full (y - 1) 100 4); lia).
  replace ((y - 1 + 400) / 100) with ((y - 1) / 100 + 4)
    by (symmetry; apply (Z_div_plus_full (y - 1) 4 100); lia).
  replace ((y - 1 + 400) / 400) with ((y - 1) / 400 + 1)
    by (symmetry; apply (Z_div_plus_full (y - 1) 1 400); lia).
  lia.
Qed.

Lemma days_in_month_400 y m : days_in_month (y + 400) m = days_in_month y m.
Proof. unfold days_in_month. rewrite is_leap_400. reflexivity. Qed.

Lemma ymd2ord_400 y m d : ymd2ord (y + 400) m d = ymd2ord y m d + 146097.
Proof.
  unfold ymd2ord, days_before_month. rewrite days_before_year_400, is_leap_400. lia.
Qed.

Lemma day_before_400 y m d :
  day_before (y + 400) m d
  = let '(y', m', d') := day_before y m d in (y' + 400, m', d').
Proof.
  unfold day_before. rewrite days_in_month_400.
  destruct (1 <? d); [reflexivity|]. destruct (1 <? m); [reflexivity|].
  f_equal. f_equal. lia.
Qed.

Lemma ord2ymd_400 n :
  ord2ymd (n + 146097) = let '(y, m, d) := ord2ymd n in (y + 400, m, d).
Proof.
  unfold ord2ymd. cbv zeta.
  replace (n + 146097 - 1) with (n - 1 + 1 * DI400Y) by (unfold DI400Y; lia).
  rewrite Z_div_plus_full by (unfold DI400Y; lia).
  rewrite Z_mod_plus_full.
  set (r := (n - 1) mod DI400Y). set (q := (n - 1) / DI400Y).
  set (n100 := r / DI100Y). set (r1 := r mod DI100Y).
  set (n4 := r1 / DI4Y). set (r2 := r1 mod DI4Y).
  set (n1 := r2 / 365). set (r3 := r2 mod 365).
  destruct ((n1 =? 4) || (n100 =? 4)).
  - f_equal. f_equal. lia.
  - destruct (r3 <? _); f_equal; f_equal; lia.
Qed.


Lemma triple_eqb_eq a b : triple_eqb a b = true -> a = b.
Proof.
  destruct a as [[a1 a2] a3], b as [[b1 b2] b3]. unfold triple_eqb.
  rewrite !andb_true_iff, !Z.eqb_eq. intros [[-> ->] ->]. reflexivity.
Qed.

Lemma in_range lo n x : lo <= x < lo + Z.of_nat n -> In x (range lo n).
Proof.
  intros H. unfold range. apply in_map_iff. exists (Z.to_nat (x - lo)).
  split; [lia|]. apply in_seq. lia.
Qed.

Lemma check_month_unfold y m :
  check_month y m
  = forallb (fun d => triple_eqb (ord2ymd (ymd2ord y m d - 1)) (day_before y m d))
            (range 1 (Z.to_nat (days_in_month y m))).
Proof. reflexivity. Qed.

Lemma check_month_day y m d :
  check_month y m = true -> 1 <= d <= days_in_month y m ->
  ord2ymd (ymd2ord y m d - 1) = day_before y m d.
Proof.
  intros Hm Hd. rewrite check_month_unfold in Hm.
  assert (Hin : In d (range 1 (Z.to_nat (days_in_month y m)))) by (apply in_range; lia).
  apply triple_eqb_eq.
  exact (proj1 (forallb_forall _ _) Hm d Hin).
Qed.

Lemma check_year_unfold y : check_year y = forallb (check_month y) (range 1 12).
Proof. reflexivity. Qed.

Lemma check_year_month y m :
  check_year y = true -> 1 <= m <= 12 -> check_month y m = true.
Proof.
  intros Hy Hm. rewrite check_year_unfold in Hy.
  assert (Hin : In m (range 1 12)) by (apply in_range; lia).
  exact (proj1 (forallb_forall (check_month y) (range 1 12)) Hy m Hin).
Qed.

Lemma check_year_sound y m d :
  check_year y = true -> 1 <= m <= 12 -> 1 <= d <= days_in_month y m ->
  ord2ymd (ymd2ord y m d - 1) = day_before y m d.
Proof.
  intros Hy Hm Hd. apply check_month_day; [|exact Hd].
  apply check_year_month; assumption.
Qed.

Lemma check_years_2_401 : forallb check_year (range 2 400) = true.
Proof. vm_cast_no_check (eq_refl true). Qed.

(** Year 1, from its second day on. *)
Lemma check_year_1 :
  forallb (check_month 1) (range 2 11) = true /\
  forallb (fun d => triple_eqb (ord2ymd (ymd2ord 1 1 d - 1)) (day_before 1 1 d))
          (range 2 30) = true.
Proof. vm_compute. split; reflexivity. Qed.

(** Going back one ordinal is going back one day of the calendar, in
    the years 2 to 401 by the check above, then in every later year by
    the period of the calendar. *)
Lemma day_before_cycle (k : nat) y m d :
  2 <= y <= 401 -> 1 <= m <= 12 -> 1 <= d <= days_in_month (y + 400 * Z.of_nat k) m ->
  ord2ymd (ymd2ord (y + 400 * Z.of_nat k) m d - 1)
  = day_before (y + 400 * Z.of_nat k) m d.
Proof.
  intros Hy Hm. revert d. induction k as [|k IH]; intros d Hd.
  - replace (y + 400 * Z.of_nat 0) with y in * by lia.
    apply check_year_sound; [|exact Hm|exact Hd].
    apply (proj1 (forallb_forall _ _) check_years_2_401). apply in_range. lia.
  - replace (y + 400 * Z.of_nat (S k)) with (y + 400 * Z.of_nat k + 400) in * by lia.
    rewrite days_in_month_400 in Hd.
    rewrite ymd2ord_400, day_before_400, <- (IH d Hd).
    replace (ymd2ord (y + 400 * Z.of_nat k) m d + 146097 - 1)
      with (ymd2ord (y + 400 * Z.of_nat k) m d - 1 + 146097) by lia.
    apply ord2ymd_400.
Qed.

Lemma day_before_correct y m d :
  1 <= y -> 1 <= m <= 12 -> 1 <= d <= days_in_month y m -> (y, m, d) <> (1, 1, 1) ->
  ord2ymd (ymd2ord y m d - 1) = day_before y m d.
Proof.
  intros Hy Hm Hd Hne.
  destruct (Z.eq_dec y 1) as [->|Hy1].
  - destruct check_year_1 as [Hmonths Hdays].
    destruct (Z.eq_dec m 1) as [->|Hm1].
    + apply triple_eqb_eq.
      apply (proj1 (forallb_forall _ _) Hdays d). apply in_range.
      change (days_in_month 1 1) with 31 in Hd.
      assert (d <> 1) by congruence. lia.
    + apply check_month_day; [|exact Hd].
      apply (proj1 (forallb_forall _ _) Hmonths m). apply in_range. lia.
  - replace y with (2 + (y - 2) mod 400 + 400 * Z.of_nat (Z.to_nat ((y - 2) / 400))) in *.
    + apply day_before_cycle; [|exact Hm|exact Hd].
      pose proof (Z.mod_pos_bound (y - 2) 400). lia.
    + pose proof (Z.div_mod (y - 2) 400). pose proof (Z.div_pos (y - 2) 400).
      rewrite Z2Nat.id by lia. lia.
Qed.

Lemma days_in_year_bound y m d :
  1 <= m <= 12 -> 1 <= d <= days_in_month y m -> 1 <= days_before_month y m + d <= 366.
Proof.
  intros Hm Hd. unfold days_before_month, days_in_month in *.
  assert (Hcases : m = 1 \/ m = 2 \/ m = 3 \/ m = 4 \/ m = 5 \/ m = 6 \/
                   m = 7 \/ m = 8 \/ m = 9 \/ m = 10 \/ m = 11 \/ m = 12) by lia.
  destruct (is_leap y);
    repeat (destruct Hcases as [->|Hcases]; [simpl in *; lia|]); subst; simpl in *; lia.
Qed.

Lemma ymd2ord_range y m d :
  valid_date y m d -> (y, m, d) <> (1, 1, 1) -> 0 < ymd2ord y m d - 1 <= MAXORDINAL.
Proof.
  intros (Hy & Hm & Hd) Hne.
  pose proof (days_in_year_bound y m d Hm Hd) as Hb.
  unfold ymd2ord, MAXORDINAL, days_before_year in *. cbv zeta.
  destruct (Z.eq_dec y 1) as [->|Hy1].
  - change ((1 - 1) * 365 + (1 - 1) / 4 - (1 - 1) / 100 + (1 - 1) / 400) with 0.
    destruct (Z.eq_dec m 1) as [->|Hm1].
    + change (days_before_month 1 1) with 0 in *. assert (d <> 1) by congruence. lia.
    + assert (31 <= days_before_month 1 m); [|lia].
      unfold days_before_month.
      assert (Hcases : m = 2 \/ m = 3 \/ m = 4 \/ m = 5 \/ m = 6 \/
                       m = 7 \/ m = 8 \/ m = 9 \/ m = 10 \/ m = 11 \/ m = 12) by lia.
      repeat (destruct Hcases as [->|Hcases]; [simpl; lia|]); subst; simpl; lia.
  - pose proof (Z.div_mod (y - 1) 4). pose proof (Z.mod_pos_bound (y - 1) 4).
    pose proof (Z.div_mod (y - 1) 100). pose proof (Z.mod_pos_bound (y - 1) 100).
    pose proof (Z.div_mod (y - 1) 400). pose proof (Z.mod_pos_bound (y - 1) 400).
    lia.
Qed.

(** [t - timedelta(days=1)] is the day before [t] on the calendar, at
    the same time of day; it is refused on the first day of year 1 only. *)
Lemma minus_one_day_spec t :
  valid_date (year t) (month t) (day t) ->
  minus_one_day t =
  if decide ((year t, month t, day t) = (1, 1, 1))
  then Raise (OverflowError "date value out of range")
  else let '(y, m, d) := day_before (year t) (month t) (day t) in
       Return (mk_datetime y m d (hour t) (minute t) (second t) (microsecond t)).
Proof.
  intros Hv. unfold minus_one_day, toordinal.
  destruct (decide ((year t, month t, day t) = (1, 1, 1))) as [E|Hne].
  - injection E as -> -> ->. reflexivity.
  - pose proof (ymd2ord_range _ _ _ Hv Hne) as Hr.
    destruct (Z.ltb_spec 0 (ymd2ord (year t) (month t) (day t) - 1)); [|lia].
    destruct (Z.leb_spec (ymd2ord (year t) (month t) (day t) - 1) MAXORDINAL); [|lia].
    simpl. destruct Hv as (Hy & Hm & Hd).
    rewrite day_before_correct by (auto; lia). reflexivity.
Qed.

Lemma yesterday_key_spec t yesterday :
  valid_date (year t) (month t) (day t) ->
  minus_one_day t = Return yesterday ->
  strftime_Ymd yesterday +:+ ".csv" = yesterday_key t.
Proof.
  intros Hv H. rewrite (minus_one_day_spec t Hv) in H.
  destruct (decide _); [discriminate|].
  unfold yesterday_key.
  destruct (day_before (year t) (month t) (day t)) as [[y m] d].
  injection H as <-. unfold strftime_Ymd. simpl.
  rewrite <- !append_assoc. reflexivity.
Qed.

End calendar_facts.

(** C5: whatever the frame archived, the key [save_in_bucket] writes
    to is the calendar day before the reading of the wall clock, written
    year-month-day, followed by [.csv]; with the bucket configured and a
    clock later than the first day of year 1, exactly one object is
    written, under that key. *)
Theorem archive_key_is_day_before env data w :
  valid_date (year (now env)) (month (now env)) (day (now env)) ->
  (forall body bucket key,
      In (body, bucket, key) (archived (events_of (save_in_bucket env data) w)) ->
      key = yesterday_key (now env)) /\
  (forall bucket df,
      environ env !! "BUCKET_DEST" = Some bucket ->
      heap w !! data = Some df ->
      (year (now env), month (now env), day (now env)) <> (1, 1, 1)%Z ->
      archived (events_of (save_in_bucket env data) w)
      = [(to_csv env df, bucket, yesterday_key (now env))]).
Proof.
  intros Hv. split.
  - intros body bucket key Hin.
    destruct (save_in_bucket_archived env data w) as [H|[(e & H & _)|H]].
    + rewrite H in Hin. destruct Hin.
    + rewrite H in Hin. destruct Hin.
    + destruct H as (bucket' & df & y & _ & _ & Hy & H).
      rewrite H in Hin. destruct Hin as [Hin|[]]. injection Hin as _ _ <-.
      apply yesterday_key_spec; assumption.
  - intros bucket df Hb Hd Hne.
    pose proof (save_in_bucket_run env data w) as Hrun.
    rewrite Hb, Hd in Hrun. simpl in Hrun.
    pose proof (minus_one_day_spec _ Hv) as Hm.
    destruct (decide _) as [E|_]; [contradiction|].
    destruct (minus_one_day (now env)) as [y|e] eqn:Hy.
    2:{ destruct (day_before _ _ _) as [[? ?] ?]. discriminate. }
    rewrite <- (yesterday_key_spec _ _ Hv Hy).
    destruct (put_object env _ bucket _) as [u|e];
      (erewrite events_of_app; [|rewrite Hrun; simpl; rewrite <- ?app_assoc; reflexivity]);
      reflexivity.
Qed.

Lemma archive_key_is_day_before_witness :
  archived (events_of (save_in_bucket env_ok 0) (fst (get_market_value env_ok init_world)))
  = [(to_csv env_ok
        {| columns := quote_columns;
           rows := imap (fun i k =>
                           (VInt (Z.of_nat i),
                            [VTimestamp (midnight 2024 3 14);
                             VFloat (100 + Z.of_nat i); VInt 7; VStr k])) tickers |},
      "bucket", "2024-03-14.csv")].
Proof.
  refine (proj2 (archive_key_is_day_before env_ok 0
                   (fst (get_market_value env_ok init_world)) _) "bucket" _ _ _ _).
  - unfold valid_date. repeat split; vm_compute; discriminate.
  - vm_compute. reflexivity.
  - vm_compute. reflexivity.
  - vm_compute. discriminate.
Defined.

(** The day before the first of March of a leap year, and the day
    before New Year's Day. *)
Example yesterday_key_leap :
  yesterday_key (mk_datetime 2024 3 1 0 5 0 0) = "2024-02-29.csv".
Proof. reflexivity. Qed.

Example yesterday_key_new_year :
  yesterday_key (mk_datetime 2025 1 1 23 59 59 0) = "2024-12-31.csv".
Proof. reflexivity. Qed.

(** * Further properties of the functions *)

(** ** [get_secret] *)

(** The run of [get_secret], step by step. *)
Lemma get_secret_run env w :
  get_secret env w =
  match environ env !! "SECRET_NAME" with
  | None => (w, Raise (KeyError "SECRET_NAME"))
  | Some secret_name =>
  match environ env !! "REGION_NAME" with
  | None => (w, Raise (KeyError "REGION_NAME"))
  | Some region_name =>
      ({| heap := heap w; trace := trace w ++ [GetSecretValue region_name secret_name] |},
       get_secret_value env region_name secret_name)
  end end.
Proof.
  unfold get_secret, os_environ.
  destruct (environ env !! "SECRET_NAME") as [name|]; [|reflexivity].
  unfold bind at 1. unfold ret at 1.
  destruct (environ env !! "REGION_NAME") as [region|]; [|reflexivity].
  unfold bind, ret, emit, lift. simpl.
  destruct (get_secret_value env region name); reflexivity.
Qed.

(** X1: [get_secret] reads [SECRET_NAME], then [REGION_NAME]; when one
    of them is not set it raises [KeyError] for the first one missing
    and the secret store is not asked; with both set the store is asked
    once, for that secret in that region, and its answer (or its error)
    is the result. *)
Theorem get_secret_environment env w :
  (environ env !! "SECRET_NAME" = None ->
   get_secret env w = (w, Raise (KeyError "SECRET_NAME"))) /\
  (forall secret_name,
      environ env !! "SECRET_NAME" = Some secret_name ->
      environ env !! "REGION_NAME" = None ->
      get_secret env w = (w, Raise (KeyError "REGION_NAME"))) /\
  (forall secret_name region_name,
      environ env !! "SECRET_NAME" = Some secret_name ->
      environ env !! "REGION_NAME" = Some region_name ->
      get_secret env w
      = ({| heap := heap w;
            trace := trace w ++ [GetSecretValue region_name secret_name] |},
         get_secret_value env region_name secret_name)).
Proof.
  rewrite get_secret_run. split; [|split].
  - intros ->. reflexivity.
  - intros name -> ->. reflexivity.
  - intros name region -> ->. reflexivity.
Qed.

Lemma get_secret_environment_witness :
  get_secret env_ok init_world
  = ({| heap := ∅; trace := [GetSecretValue "us-east-1" "secret"] |}, Return sample_secret)
  /\ get_secret env_no_region init_world = (init_world, Raise (KeyError "REGION_NAME"))
  /\ get_secret env_unconfigured init_world = (init_world, Raise (KeyError "SECRET_NAME")).
Proof.
  split; [|split].
  - apply (proj2 (proj2 (get_secret_environment env_ok init_world)) "secret" "us-east-1");
      vm_compute; reflexivity.
  - apply (proj1 (proj2 (get_secret_environment env_no_region init_world)) "secret");
      vm_compute; reflexivity.
  - apply (proj1 (get_secret_environment env_unconfigured init_world)).
    vm_compute; reflexivity.
Defined.

(** ** [connect_to_mysql] *)

(** One pass through the loop body, whatever the attempt. *)
Lemma connect_loop_pass env fuel cfg attempts delay attempt w :
  (attempt <= attempts)%Z ->
  connect_loop env (S fuel) cfg attempts delay attempt w =
  let tr := trace w ++ [Log ("Trying to connect to MySQL, attempt " +:+ pretty attempt);
                        Connect cfg] in
  match mysql_connect env (count is_connect (trace w)) cfg with
  | Return cnx =>
      ({| heap := heap w; trace := tr ++ [Log "Connected to MySQL!"] |},
       Return (Some cnx))
  | Raise e =>
      if is_mysql_or_io e then
        if (attempt =? attempts)%Z then
          ({| heap := heap w;
              trace := tr ++ [Log ("Failed to connect, exiting without a connection: "
                                   +:+ str_of_exn e)] |},
           Return None)
        else ({| heap := heap w; trace := tr |}, Raise (NameError "attemps"))
      else ({| heap := heap w; trace := tr |}, Raise e)
  end.
Proof.
  intros Hle. simpl.
  destruct (Z.ltb_spec attempt (attempts + 1)) as [_|]; [|lia].
  unfold try_except, bind, emit, connect_call, get_trace, lift, ret, bind; simpl.
  rewrite count_app; simpl; rewrite Nat.add_0_r.
  destruct (mysql_connect env _ cfg) as [cnx|e]; simpl.
  - rewrite <- !app_assoc. reflexivity.
  - destruct (is_mysql_or_io e); [|rewrite <- !app_assoc; reflexivity].
    destruct (attempt =? attempts)%Z; simpl; rewrite <- !app_assoc; reflexivity.
Qed.

(** The outcome of [connect_to_mysql] once the secret is read, for any
    number of attempts and any delay. *)
Lemma connect_to_mysql_cases env attempts delay w w1 secret :
  get_secret env w = (w1, Return secret) ->
  connect_to_mysql env attempts delay w =
  if (attempts <? 1)%Z then (w1, Return None)
  else
    let cfg := config_of_secret secret in
    let tr := trace w1 ++ [Log "Trying to connect to MySQL, attempt 1"; Connect cfg] in
    match mysql_connect env (count is_connect (trace w1)) cfg with
    | Return cnx =>
        ({| heap := heap w1; trace := tr ++ [Log "Connected to MySQL!"] |},
         Return (Some cnx))
    | Raise e =>
        if is_mysql_or_io e then
          if (attempts =? 1)%Z then
            ({| heap := heap w1;
                trace := tr ++ [Log ("Failed to connect, exiting without a connection: "
                                     +:+ str_of_exn e)] |},
             Return None)
          else ({| heap := heap w1; trace := tr |}, Raise (NameError "attemps"))
        else ({| heap := heap w1; trace := tr |}, Raise e)
    end.
Proof.
  intros Hs. unfold connect_to_mysql. rewrite (bind_Return _ _ _ _ _ Hs).
  destruct (Z.ltb_spec attempts 1) as [Hlt|Hge].
  - replace (Z.to_nat (attempts + 1 - 1)) with 0 by lia. reflexivity.
  - replace (Z.to_nat (attempts + 1 - 1)) with (S (Z.to_nat (attempts - 1))) by lia.
    rewrite connect_loop_pass by lia.
    rewrite (Z.eqb_sym 1 attempts). reflexivity.
Qed.

Lemma get_secret_trace env w :
  exists evs, trace (fst (get_secret env w)) = trace w ++ evs /\
              count is_sleep evs = 0 /\ count is_connect evs = 0 /\
              heap (fst (get_secret env w)) = heap w.
Proof.
  rewrite get_secret_run.
  destruct (environ env !! "SECRET_NAME"); [|exists []; rewrite app_nil_r; auto].
  destruct (environ env !! "REGION_NAME"); [|exists []; rewrite app_nil_r; auto].
  eexists. split; [reflexivity|]. auto.
Qed.

Lemma events_of_run {A} (m : M A) w w' r evs :
  m w = (w', r) -> trace w' = trace w ++ evs -> events_of m w = evs.
Proof. intros Hm Htr. apply events_of_app. rewrite Hm. exact Htr. Qed.

(** X2: whatever the number of attempts and the delay, and whatever the
    connector answers, [connect_to_mysql] never sleeps and tries to
    connect at most once. *)
Theorem connect_to_mysql_never_retries env attempts delay w :
  count is_sleep (events_of (connect_to_mysql env attempts delay) w) = 0 /\
  count is_connect (events_of (connect_to_mysql env attempts delay) w) <= 1.
Proof.
  destruct (get_secret_trace env w) as (evs & Htr & Hsl & Hco & _).
  destruct (get_secret env w) as [w1 [secret|e]] eqn:Hs; simpl in Htr.
  - pose proof (connect_to_mysql_cases env attempts delay w w1 secret Hs) as Hc.
    destruct (attempts <? 1)%Z.
    + rewrite (events_of_run _ _ _ _ evs Hc Htr), Hsl, Hco. lia.
    + cbv zeta in Hc.
      destruct (mysql_connect env _ _) as [cnx|e];
        [|destruct (is_mysql_or_io e); [destruct (attempts =? 1)%Z|]];
        (erewrite (events_of_run _ _ _ _ _ Hc);
         [|simpl; rewrite Htr, <- !app_assoc; reflexivity]);
        rewrite !count_app, Hsl, Hco; unfold count; simpl; lia.
  - assert (Hc : connect_to_mysql env attempts delay w = (w1, Raise e))
      by (unfold connect_to_mysql; apply (bind_Raise _ _ _ _ _ Hs)).
    rewrite (events_of_run _ _ _ _ evs Hc Htr), Hsl, Hco. lia.
Qed.

(** X3: [connect_to_mysql] returns [None] in two cases only: when
    [attempts] is not positive, without trying to connect, and when
    [attempts] is 1 and the single attempt is refused with a MySQL or
    I/O error. *)
Theorem connect_to_mysql_returns_none env attempts delay w w1 secret :
  get_secret env w = (w1, Return secret) ->
  (snd (connect_to_mysql env attempts delay w) = Return None <->
   (attempts <= 0)%Z \/
   (attempts = 1%Z /\
    exists e, mysql_connect env (count is_connect (trace w1)) (config_of_secret secret)
              = Raise e /\ is_mysql_or_io e = true)) /\
  ((attempts <= 0)%Z -> connect_to_mysql env attempts delay w = (w1, Return None)).
Proof.
  intros Hs. rewrite (connect_to_mysql_cases env attempts delay w w1 secret Hs).
  destruct (Z.ltb_spec attempts 1) as [Hlt|Hge].
  - split; [|reflexivity]. split; [intros _; left; lia|reflexivity].
  - split; [|lia]. cbv zeta.
    destruct (mysql_connect env _ _) as [cnx|e]; simpl.
    + split; [discriminate|]. intros [H|(_ & e & He & _)]; [lia|discriminate].
    + destruct (is_mysql_or_io e) eqn:Hio.
      * destruct (Z.eqb_spec attempts 1) as [->|Hne]; simpl.
        -- split; [|reflexivity]. intros _. right. split; [reflexivity|]. eauto.
        -- split; [discriminate|]. intros [H|(H & _)]; lia.
      * simpl. split; [discriminate|].
        intros [H|(_ & e' & He & He')]; [lia|]. congruence.
Qed.

Lemma connect_to_mysql_returns_none_witness :
  snd (connect_to_mysql env_db_down 1 2 init_world) = Return None /\
  connect_to_mysql env_db_down 0 2 init_world
  = ({| heap := ∅; trace := [GetSecretValue "us-east-1" "secret"] |}, Return None).
Proof.
  destruct (connect_to_mysql_returns_none env_db_down 1 2 init_world
              (fst (get_secret env_db_down init_world)) sample_secret)
    as [[_ H1] _]; [vm_compute; reflexivity|].
  destruct (connect_to_mysql_returns_none env_db_down 0 2 init_world
              (fst (get_secret env_db_down init_world)) sample_secret)
    as [_ H0]; [vm_compute; reflexivity|].
  split.
  - apply H1. right. split; [reflexivity|]. eexists. split; vm_compute; reflexivity.
  - apply H0. lia.
Defined.

(** X4: errors [connect_to_mysql] does not handle.  An error of
    [get_secret] comes out before any connection attempt; an error of
    the connector that is neither a MySQL error nor an I/O error comes
    out unchanged after the first attempt. *)
Theorem connect_to_mysql_unhandled_errors env attempts delay w :
  (forall w1 e,
      get_secret env w = (w1, Raise e) ->
      connect_to_mysql env attempts delay w = (w1, Raise e)) /\
  (forall w1 secret e,
      get_secret env w = (w1, Return secret) ->
      (1 <= attempts)%Z ->
      mysql_connect env (count is_connect (trace w1)) (config_of_secret secret) = Raise e ->
      is_mysql_or_io e = false ->
      connect_to_mysql env attempts delay w
      = ({| heap := heap w1;
            trace := trace w1 ++ [Log "Trying to connect to MySQL, attempt 1";
                                  Connect (config_of_secret secret)] |},
         Raise e)).
Proof.
  split.
  - intros w1 e Hs. unfold connect_to_mysql. apply (bind_Raise _ _ _ _ _ Hs).
  - intros w1 secret e Hs Hge Hc Hio.
    rewrite (connect_to_mysql_cases env attempts delay w w1 secret Hs).
    destruct (Z.ltb_spec attempts 1); [lia|]. cbv zeta. rewrite Hc, Hio. reflexivity.
Qed.

Lemma connect_to_mysql_unhandled_errors_witness :
  connect_to_mysql env_secret_denied 3 2 init_world
  = ({| heap := ∅; trace := [GetSecretValue "us-east-1" "secret"] |},
     Raise (ExternalError "AccessDeniedException")) /\
  snd (connect_to_mysql env_connector_broken 3 2 init_world)
  = Raise (TypeError "an integer is required").
Proof.
  split.
  - apply (proj1 (connect_to_mysql_unhandled_errors env_secret_denied 3 2 init_world)).
    vm_compute. reflexivity.
  - rewrite (proj2 (connect_to_mysql_unhandled_errors env_connector_broken 3 2 init_world)
               (fst (get_secret env_connector_broken init_world)) sample_secret
               (TypeError "an integer is required"));
      [reflexivity|vm_compute; reflexivity|lia|vm_compute; reflexivity|reflexivity].
Defined.

(** ** [insert_data] *)

(** The loop of [insert_data] in every run: inserts are executed for
    the first records, in order; all of them when the loop completes. *)
Lemma insert_rows_cases env cnx q its w :
  exists ps,
    trace (fst (insert_rows env cnx q its w)) = trace w ++ map (Execute cnx q) ps /\
    Forall2 (fun it p => row_params (snd it) = Return p) (take (length ps) its) ps /\
    (forall u, snd (insert_rows env cnx q its w) = Return u -> length ps = length its).
Proof.
  revert w. induction its as [|[idx row] its IH]; intros w; simpl.
  - exists []. simpl. rewrite app_nil_r. repeat split; constructor.
  - unfold bind at 1. unfold lift at 1.
    destruct (row_params row) as [p|e] eqn:Hp; simpl.
    2:{ exists []. simpl. rewrite app_nil_r. repeat split; [constructor|discriminate]. }
    unfold bind at 1. unfold execute_call, bind, get_trace, emit, lift. simpl.
    destruct (cursor_execute env _ cnx q p) as [u|e]; simpl.
    + destruct (IH {| heap := heap w; trace := trace w ++ [Execute cnx q p] |})
        as (ps & Htr & Hps & Hret).
      exists (p :: ps). simpl in *. rewrite Htr, <- app_assoc.
      split; [reflexivity|]. split; [constructor; assumption|].
      intros u' Hu. f_equal. eauto.
    + exists [p]. simpl. rewrite take_0.
      split; [reflexivity|]. split; [repeat constructor; exact Hp|discriminate].
Qed.

(** [insert_data] once the table name is read and the cursor open. *)
Lemma insert_data_unfold env cnx data w table df :
  environ env !! "DB_TABLE_NAME" = Some table ->
  heap w !! data = Some df ->
  insert_data env cnx data w =
  match cnx_cursor env cnx with
  | Raise e => ({| heap := heap w; trace := trace w ++ [Cursor cnx] |}, Raise e)
  | Return _ =>
      match insert_rows env cnx (insert_query table) (Pandas.iterrows df)
              {| heap := heap w; trace := trace w ++ [Cursor cnx] |} with
      | (w2, Raise e) => (w2, Raise e)
      | (w2, Return _) =>
          match cnx_commit env cnx with
          | Raise e => ({| heap := heap w2; trace := trace w2 ++ [Commit cnx] |}, Raise e)
          | Return _ =>
              ({| heap := heap w2; trace := trace w2 ++ [Commit cnx; CursorClose cnx] |},
               cursor_close env cnx)
          end
      end
  end.
Proof.
  intros Henv Hd. unfold insert_data, os_environ. rewrite Henv.
  unfold bind at 1. unfold ret at 1.
  unfold bind at 1. unfold emit at 1.
  unfold bind at 1. unfold lift at 1.
  destruct (cnx_cursor env cnx) as [u|e]; [|reflexivity].
  unfold bind at 1. unfold load at 1. simpl. rewrite Hd.
  unfold bind at 1. fold (insert_query table).
  destruct (insert_rows env cnx _ _ _) as [w2 [u2|e2]]; [|reflexivity].
  unfold bind, emit, lift. simpl.
  destruct (cnx_commit env cnx) as [uc|ec]; simpl; [|reflexivity].
  rewrite <- app_assoc.
  destruct (cursor_close env cnx); reflexivity.
Qed.

(** The events of [insert_data] in every run with the table configured:
    the cursor, the inserts of the first records, then nothing (a
    failure), or the commit alone (the commit failed), or the commit and
    the closing of the cursor. *)
Lemma insert_data_cases env cnx data w df table :
  environ env !! "DB_TABLE_NAME" = Some table ->
  heap w !! data = Some df ->
  exists ps tail,
    trace (fst (insert_data env cnx data w))
    = trace w ++ Cursor cnx :: map (Execute cnx (insert_query table)) ps ++ tail /\
    Forall2 (fun it p => row_params (snd it) = Return p)
            (take (length ps) (Pandas.iterrows df)) ps /\
    ((tail = [] /\ exists e, snd (insert_data env cnx data w) = Raise e)
     \/ (tail = [Commit cnx] /\ length ps = length (Pandas.iterrows df)
         /\ exists e, cnx_commit env cnx = Raise e
                      /\ snd (insert_data env cnx data w) = Raise e)
     \/ (tail = [Commit cnx; CursorClose cnx] /\ length ps = length (Pandas.iterrows df)
         /\ cnx_commit env cnx = Return tt
         /\ snd (insert_data env cnx data w) = cursor_close env cnx)).
Proof.
  intros Henv Hd. rewrite (insert_data_unfold env cnx data w table df Henv Hd).
  destruct (cnx_cursor env cnx) as [u|e].
  2:{ exists [], []. simpl. split; [reflexivity|]. split; [constructor|eauto]. }
  match goal with |- context [insert_rows env cnx ?q ?its ?w1] =>
    destruct (insert_rows_cases env cnx q its w1) as (ps & Htr & Hps & Hret);
    destruct (insert_rows env cnx q its w1) as [w2 [u2|e2]] end;
    simpl in Htr, Hret.
  - specialize (Hret u2 eq_refl).
    destruct (cnx_commit env cnx) as [[]|ec] eqn:Hcom; simpl; rewrite Htr.
    + exists ps, [Commit cnx; CursorClose cnx]. rewrite <- !app_assoc.
      split; [reflexivity|split; [exact Hps|right; right; repeat split; auto]].
    + exists ps, [Commit cnx]. rewrite <- !app_assoc.
      split; [reflexivity|]. split; [exact Hps|right; left; repeat split; eauto].
  - exists ps, []. simpl. rewrite Htr, <- app_assoc, app_nil_r.
    split; [reflexivity|]. split; [exact Hps|eauto].
Qed.


(** Without [DB_TABLE_NAME] in the environment [insert_data] raises
    [KeyError] before it touches the database: no cursor is opened. *)
Lemma insert_data_without_table env cnx data w :
  environ env !! "DB_TABLE_NAME" = None ->
  insert_data env cnx data w = (w, Raise (KeyError "DB_TABLE_NAME")).
Proof. intros H. unfold insert_data, os_environ. rewrite H. reflexivity. Qed.



(** ** The reshaping of a provider answer in [get_market_value] *)

Lemma positions_from_ge i l cols p : In p (Pandas.positions_from i l cols) -> i <= p.
Proof.
  revert i. induction cols as [|c cols IH]; intros i; simpl; [intros []|].
  destruct (String.eqb c l); simpl.
  - intros [<-|H]; [lia|]. apply IH in H. lia.
  - intros H. apply IH in H. lia.
Qed.

Lemma positions_from_length i l cols :
  length (Pandas.positions_from i l cols) = count_occ string_dec cols l.
Proof.
  revert i. induction cols as [|c cols IH]; intros i; simpl; [reflexivity|].
  destruct (String.eqb_spec c l) as [E|Hne]; destruct (string_dec c l); simpl;
    try congruence; rewrite IH; reflexivity.
Qed.

(** The first column labelled [l] is the one [row[l]] reads. *)
Lemma series_get_position i l cols p ps r :
  Pandas.positions_from i l cols = p :: ps ->
  length r = length cols ->
  Pandas.series_get l (Pandas.series_of cols r) = Return (nth (p - i) r NaN).
Proof.
  revert i r. induction cols as [|c cols IH]; intros i r Hp Hlen; simpl in Hp; [discriminate|].
  destruct r as [|x r]; [discriminate|]. simpl in Hlen.
  unfold Pandas.series_of. simpl.
  destruct (String.eqb c l).
  - injection Hp as <- _. rewrite Nat.sub_diag. reflexivity.
  - assert (S i <= p).
    { apply (positions_from_ge (S i) l cols). rewrite Hp. left. reflexivity. }
    replace (p - i) with (S (p - S i)) by lia. simpl.
    apply IH; [exact Hp|lia].
Qed.

(** The four outcomes of the reshaping. *)
Lemma shape_frame_cases moneda df :
  shape_frame moneda df =
  match Pandas.positions "Adj Close" (columns df), Pandas.positions "Volume" (columns df) with
  | [], _ => Raise (KeyError "Adj Close")
  | _ :: _, [] => Raise (KeyError "Volume")
  | [p1], [p2] =>
      Return {| columns := quote_columns;
                rows := map (fun ir => (fst ir, [fst ir; nth p1 (snd ir) NaN;
                                                 nth p2 (snd ir) NaN; VStr moneda]))
                            (rows df) |}
  | _, _ => Raise (ValueError "Length mismatch")
  end.
Proof.
  unfold shape_frame, Pandas.getitem_list at 1.
  rewrite !filter_cons, filter_nil. simpl flat_map.
  destruct (Pandas.positions "Adj Close" (columns df)) as [|p1 [|p1' PA]];
    destruct (Pandas.positions "Volume" (columns df)) as [|p2 [|p2' PV]];
    repeat case_decide; try congruence; try reflexivity;
    try solve [destruct PA; reflexivity].
  unfold Pandas.set_columns. cbn [columns rows]. simpl.
  unfold Pandas.setitem_scalar, Pandas.setitem, index. simpl.
  rewrite map_map. simpl.
  rewrite zip_with_map_map, zip_with_repeat, getitem_list_reorder.
  rewrite !map_map. reflexivity.
Qed.

(** X6: the records built from a provider answer.  When the reshaping
    returns, the frame has the columns date, price, volume, symbol and
    one record per bar, in the order of the bars: the date is the index
    label of the bar, the price its [Adj Close], the volume its
    [Volume], and the symbol the ticker; the other columns of the
    answer are dropped. *)
Theorem shape_frame_records moneda df df' :
  shape_frame moneda df = Return df' ->
  Forall (fun ir => length (snd ir) = length (columns df)) (rows df) ->
  columns df' = ["fecha"; "cotizacion"; "volumen"; "moneda"] /\
  Forall2 (fun ir ir' =>
             fst ir' = fst ir /\
             exists price volume,
               Pandas.series_get "Adj Close" (Pandas.series_of (columns df) (snd ir))
               = Return price /\
               Pandas.series_get "Volume" (Pandas.series_of (columns df) (snd ir))
               = Return volume /\
               snd ir' = [fst ir; price; volume; VStr moneda])
          (rows df) (rows df').
Proof.
  intros Hs Hwf. rewrite shape_frame_cases in Hs.
  destruct (Pandas.positions "Adj Close" (columns df)) as [|p1 [|]] eqn:HA; try discriminate;
    destruct (Pandas.positions "Volume" (columns df)) as [|p2 [|]] eqn:HV; try discriminate.
  injection Hs as <-. split; [reflexivity|]. simpl.
  induction Hwf as [|ir rs Hlen _ IH]; simpl; constructor; [|exact IH].
  simpl. split; [reflexivity|].
  exists (nth p1 (snd ir) NaN), (nth p2 (snd ir) NaN).
  rewrite (series_get_position 0 _ _ p1 [] (snd ir) HA Hlen).
  rewrite (series_get_position 0 _ _ p2 [] (snd ir) HV Hlen).
  rewrite !Nat.sub_0_r. auto.
Qed.

Lemma shape_frame_records_witness :
  exists df',
    shape_frame "BTC-USD" (one_bar 100 7) = Return df' /\
    rows df' = [(VTimestamp (midnight 2024 3 14),
                 [VTimestamp (midnight 2024 3 14); VFloat 100; VInt 7; VStr "BTC-USD"])].
Proof.
  eexists. split; [vm_compute; reflexivity|].
  destruct (shape_frame_records "BTC-USD" (one_bar 100 7) _ eq_refl) as [_ H].
  - repeat constructor.
  - reflexivity.
Defined.

(** X7: when the reshaping fails.  It returns exactly when the answer
    has one column labelled [Adj Close] and one labelled [Volume]; an
    answer without one of the two labels raises [KeyError], and one
    that has both, one of them more than once, raises [ValueError]. *)
Theorem shape_frame_outcomes moneda df :
  ((exists df', shape_frame moneda df = Return df') <->
   count_occ string_dec (columns df) "Adj Close" = 1 /\
   count_occ string_dec (columns df) "Volume" = 1) /\
  (~ In "Adj Close" (columns df) \/ ~ In "Volume" (columns df) ->
   exists key, shape_frame moneda df = Raise (KeyError key)) /\
  (In "Adj Close" (columns df) -> In "Volume" (columns df) ->
   count_occ string_dec (columns df) "Adj Close"
   + count_occ string_dec (columns df) "Volume" <> 2 ->
   exists msg, shape_frame moneda df = Raise (ValueError msg)).
Proof.
  rewrite shape_frame_cases.
  rewrite !(count_occ_not_In string_dec), !(count_occ_In string_dec).
  unfold Pandas.positions.
  rewrite <- !(positions_from_length 0).
  destruct (Pandas.positions_from 0 "Adj Close" (columns df)) as [|p1 [|? ?]];
    destruct (Pandas.positions_from 0 "Volume" (columns df)) as [|p2 [|? ?]]; simpl;
    (split; [split; [intros [? ?]; try discriminate; lia|intros [? ?]; try lia; eauto]|]);
    (split; [intros [?|?]; try lia; eauto|intros; try lia; eauto]).
Qed.

Lemma shape_frame_outcomes_witness :
  (exists key,
      shape_frame "BTC-USD" {| columns := ["Close"; "Volume"]; rows := [] |}
      = Raise (KeyError key)) /\
  (exists key,
      shape_frame "BTC-USD" {| columns := ["Adj Close"; "Close"]; rows := [] |}
      = Raise (KeyError key)) /\
  (exists msg,
      shape_frame "BTC-USD" {| columns := ["Adj Close"; "Volume"; "Volume"]; rows := [] |}
      = Raise (ValueError msg)).
Proof.
  split; [|split].
  - apply (proj1 (proj2 (shape_frame_outcomes "BTC-USD" _))). left. simpl.
    intuition discriminate.
  - apply (proj1 (proj2 (shape_frame_outcomes "BTC-USD" _))). right. simpl.
    intuition discriminate.
  - apply (proj2 (proj2 (shape_frame_outcomes "BTC-USD" _))); simpl;
      [intuition discriminate..|]. vm_compute. discriminate.
Defined.

(** ** [get_market_value] *)


Lemma requested_fetch_events ts : requested (flat_map fetch_events ts) = ts.
Proof. induction ts as [|t ts IH]; simpl; [reflexivity|]. rewrite IH. reflexivity. Qed.

(** The loop over the tickers when every answer can be reshaped: it
    completes, having stored the reshaped answers one after the other. *)
Lemma ticker_loop_run env ts answers d w :
  answers_from env (count is_download (trace w)) ts answers ->
  exists frames,
    Forall2 (fun ta df => shape_frame (fst ta) (snd ta) = Return df) (zip ts answers) frames /\
    length answers = length ts /\
    length frames = length ts /\
    ticker_loop env ts d w
    = ({| heap := heap w; trace := trace w ++ flat_map fetch_events ts |},
       Return (foldl (fun d kv => dict_set (fst kv) (snd kv) d) d (zip ts frames))).
Proof.
  revert answers d w. induction ts as [|t ts IH]; intros answers d w Ha.
  - destruct answers; [|destruct Ha]. exists []. simpl.
    rewrite app_nil_r, world_eta. repeat split; constructor.
  - destruct answers as [|a answers]; [destruct Ha|].
    destruct Ha as (Hdl & (df & Hsh) & Ha).
    simpl. unfold bind. rewrite ticker_frame_run, Hdl, Hsh. simpl.
    destruct (IH answers (dict_set t df d)
                {| heap := heap w;
                   trace := (trace w ++ [Log ("Getting " +:+ t +:+ " data");
                                         Download t "1d" "1d"])
                            ++ [Log ("Downloaded " +:+ t +:+ " data")] |})
      as (frames & Hf & Hla & Hlf & Hrun).
    { simpl. rewrite !count_app. unfold count at 2 3. simpl.
      rewrite Nat.add_0_r, Nat.add_1_r. exact Ha. }
    exists (df :: frames). simpl.
    split; [constructor; assumption|]. split; [congruence|]. split; [congruence|].
    rewrite Hrun. simpl. rewrite <- !app_assoc. reflexivity.
Qed.








Lemma ticker_loop_app_run env pre rest d w w1 d1 :
  ticker_loop env pre d w = (w1, Return d1) ->
  ticker_loop env (pre ++ rest) d w = ticker_loop env rest d1 w1.
Proof.
  revert d w. induction pre as [|t pre IH]; intros d w Hrun; simpl in *.
  - injection Hrun as <- <-. reflexivity.
  - unfold bind in *. destruct (ticker_frame env t w) as [w2 [df|e]]; [|discriminate].
    apply IH. exact Hrun.
Qed.

Lemma count_download_fetch_events ts :
  count is_download (flat_map fetch_events ts) = length ts.
Proof. unfold count. induction ts as [|t ts IH]; simpl; [reflexivity|]. rewrite IH. reflexivity. Qed.

(** X9: an error while fetching a ticker, raised by the provider or by
    the reshaping of its answer, ends [get_market_value] with that
    error: the tickers after it are not requested and no frame is
    created. *)
Theorem get_market_value_aborts env w pre t post answers e :
  tickers = pre ++ t :: post ->
  answers_from env (count is_download (trace w)) pre answers ->
  ticker_fails env (count is_download (trace w) + length pre) t e ->
  exists w',
    get_market_value env w = (w', Raise e) /\
    heap w' = heap w /\
    requested (trace w') = requested (trace w) ++ pre ++ [t].
Proof.
  intros Ht Ha Hfail.
  destruct (ticker_loop_run env pre answers [] w Ha) as (frames & _ & _ & _ & Hrun).
  unfold get_market_value, get_market_value_of. rewrite Ht.
  unfold bind at 1. rewrite (ticker_loop_app_run _ _ _ _ _ _ _ Hrun).
  simpl. unfold bind at 1. rewrite ticker_frame_run. simpl.
  rewrite count_app, count_download_fetch_events.
  destruct Hfail as [Hdl|(a & Hdl & Hsh)]; rewrite Hdl; simpl.
  - eexists. split; [reflexivity|]. split; [reflexivity|]. simpl.
    rewrite !requested_app, requested_fetch_events. simpl.
    rewrite <- !app_assoc. reflexivity.
  - rewrite Hsh. eexists. split; [reflexivity|]. split; [reflexivity|]. simpl.
    rewrite !requested_app, requested_fetch_events. simpl.
    rewrite app_nil_r, <- !app_assoc. reflexivity.
Qed.

Lemma get_market_value_aborts_witness :
  exists w' key,
    get_market_value env_no_adj_close init_world = (w', Raise (KeyError key)) /\
    heap w' = ∅ /\
    requested (trace w') = ["BTC-USD"; "ETH-USD"; "^GSPC"].
Proof.
  destruct (get_market_value_aborts env_no_adj_close init_world
              ["BTC-USD"; "ETH-USD"] "^GSPC" ["^IXIC"; "GC=F"]
              [one_bar 100 7; one_bar 101 7] (KeyError "Adj Close"))
    as (w' & H).
  - reflexivity.
  - simpl. repeat split; eauto.
  - right. eexists. split; reflexivity.
  - exists w', "Adj Close". exact H.
Defined.

(** ** [save_in_bucket] *)

(** X10: how [save_in_bucket] ends, for a frame of the heap and a valid
    date on the clock.  Without [BUCKET_DEST] it raises [KeyError] and
    does nothing; on the first day of year 1 it raises [OverflowError]
    before any put; when the put raises, that error is the result and no
    success is logged; otherwise it returns, having logged the attempt,
    put one object and logged the success. *)
Theorem save_in_bucket_outcomes env data w df :
  heap w !! data = Some df ->
  valid_date (year (now env)) (month (now env)) (day (now env)) ->
  (environ env !! "BUCKET_DEST" = None ->
   save_in_bucket env data w = (w, Raise (KeyError "BUCKET_DEST"))) /\
  (forall bucket,
      environ env !! "BUCKET_DEST" = Some bucket ->
      (year (now env), month (now env), day (now env)) = (1, 1, 1)%Z ->
      save_in_bucket env data w
      = ({| heap := heap w;
            trace := trace w ++ [Log ("Trying to upload .csv to " +:+ bucket)] |},
         Raise (OverflowError "date value out of range"))) /\
  (forall bucket e,
      environ env !! "BUCKET_DEST" = Some bucket ->
      (year (now env), month (now env), day (now env)) <> (1, 1, 1)%Z ->
      put_object env (to_csv env df) bucket (yesterday_key (now env)) = Raise e ->
      save_in_bucket env data w
      = ({| heap := heap w;
            trace := trace w ++ [Log ("Trying to upload .csv to " +:+ bucket);
                                 PutObject (to_csv env df) bucket (yesterday_key (now env))] |},
         Raise e)) /\
  (forall bucket u,
      environ env !! "BUCKET_DEST" = Some bucket ->
      (year (now env), month (now env), day (now env)) <> (1, 1, 1)%Z ->
      put_object env (to_csv env df) bucket (yesterday_key (now env)) = Return u ->
      save_in_bucket env data w
      = ({| heap := heap w;
            trace := trace w ++ archive_events (to_csv env df) bucket
                                               (yesterday_key (now env)) |},
         Return tt)).
Proof.
  intros Hd Hv. rewrite save_in_bucket_run, Hd.
  pose proof (minus_one_day_spec _ Hv) as Hm.
  split; [intros ->; reflexivity|].
  split; [|split].
  - intros bucket -> E. simpl. destruct (decide _) as [_|Hne]; [|contradiction].
    rewrite Hm. reflexivity.
  - intros bucket e -> Hne Hput. simpl. destruct (decide _) as [E|_]; [contradiction|].
    destruct (minus_one_day (now env)) as [y|e'] eqn:Hy.
    2:{ destruct (day_before _ _ _) as [[? ?] ?]. discriminate. }
    rewrite (yesterday_key_spec _ _ Hv Hy), Hput, <- app_assoc. reflexivity.
  - intros bucket u -> Hne Hput. simpl. destruct (decide _) as [E|_]; [contradiction|].
    destruct (minus_one_day (now env)) as [y|e'] eqn:Hy.
    2:{ destruct (day_before _ _ _) as [[? ?] ?]. discriminate. }
    rewrite (yesterday_key_spec _ _ Hv Hy), Hput, <- !app_assoc. reflexivity.
Qed.

Lemma save_in_bucket_outcomes_witness :
  snd (save_in_bucket env_put_fails 0 (fst (get_market_value env_put_fails init_world)))
  = Raise (ExternalError "AccessDenied") /\
  save_in_bucket env_no_bucket 0 (fst (get_market_value env_no_bucket init_world))
  = (fst (get_market_value env_no_bucket init_world), Raise (KeyError "BUCKET_DEST")).
Proof.
  assert (Hv : valid_date 2024 3 15)
    by (unfold valid_date; repeat split; vm_compute; discriminate).
  split.
  - destruct (heap (fst (get_market_value env_put_fails init_world)) !! 0)
      as [df|] eqn:Hd; [|vm_compute in Hd; discriminate].
    rewrite (proj1 (proj2 (proj2 (save_in_bucket_outcomes env_put_fails 0 _ df Hd Hv)))
               "bucket" (ExternalError "AccessDenied"));
      [reflexivity|vm_compute; reflexivity|vm_compute; discriminate|reflexivity].
  - destruct (heap (fst (get_market_value env_no_bucket init_world)) !! 0)
      as [df|] eqn:Hd; [|vm_compute in Hd; discriminate].
    apply (proj1 (save_in_bucket_outcomes env_no_bucket 0 _ df Hd Hv)).
    vm_compute. reflexivity.
Defined.

(** ** [lambda_handler] *)

Lemma ticker_loop_returns env ts d w w' d' :
  ticker_loop env ts d w = (w', Return d') ->
  heap w' = heap w /\ trace w' = trace w ++ flat_map fetch_events ts.
Proof.
  revert d w. induction ts as [|t ts IH]; intros d w Hrun; simpl in Hrun.
  - injection Hrun as <- _. simpl. rewrite app_nil_r. auto.
  - unfold bind in Hrun. rewrite ticker_frame_run in Hrun. simpl in Hrun.
    destruct (yf_download env _ t) as [df0|e]; [|discriminate].
    destruct (shape_frame t df0) as [df|e]; [|discriminate].
    apply IH in Hrun as [Hh Ht]. simpl in *. split; [exact Hh|].
    rewrite Ht, <- !app_assoc. reflexivity.
Qed.

(** The world after a fetch that returns. *)
Lemma get_market_value_returns_world env w w1 data :
  get_market_value env w = (w1, Return data) ->
  exists df,
    heap w !! data = None /\
    heap w1 = <[data := df]> (heap w) /\
    trace w1 = trace w ++ flat_map fetch_events tickers.
Proof.
  unfold get_market_value, get_market_value_of, bind. intros Hrun.
  destruct (ticker_loop env tickers [] w) as [w0 [d|e]] eqn:Hloop; [|discriminate].
  apply ticker_loop_returns in Hloop as [Hh Ht].
  unfold lift, alloc in Hrun.
  destruct (Pandas.concat_ignore_index (map snd d)) as [merged|e]; [|discriminate].
  injection Hrun as <- <-. exists merged. simpl. rewrite Hh.
  split; [apply not_elem_of_dom, is_fresh|]. split; [reflexivity|exact Ht].
Qed.

(** The world after an archive that returns. *)
Lemma save_in_bucket_returns env data w w' u :
  save_in_bucket env data w = (w', Return u) ->
  exists bucket key df,
    heap w !! data = Some df /\
    heap w' = heap w /\
    trace w' = trace w ++ archive_events (to_csv env df) bucket key.
Proof.
  rewrite save_in_bucket_run.
  destruct (environ env !! "BUCKET_DEST") as [bucket|]; [|discriminate].
  destruct (heap w !! data) as [df|]; [|discriminate]. simpl.
  destruct (minus_one_day (now env)) as [y|e]; [|discriminate].
  destruct (put_object env _ bucket _) as [u'|e]; [|discriminate].
  intros [= <- _]. exists bucket, (strftime_Ymd y +:+ ".csv"), df. simpl.
  rewrite <- !app_assoc. auto.
Qed.

(** The world after a connection step, with the default arguments,
    that returns a connection. *)
Lemma connect_to_mysql_returns_some env w w' cnx :
  connect_to_mysql env 3 2 w = (w', Return (Some cnx)) ->
  exists region_name secret_name secret,
    heap w' = heap w /\
    trace w' = trace w ++ connect_events region_name secret_name (config_of_secret secret).
Proof.
  intros Hrun. pose proof (get_secret_run env w) as Hs.
  destruct (get_secret env w) as [w1 [secret|e]] eqn:Hsec.
  2:{ unfold connect_to_mysql in Hrun. rewrite (bind_Raise _ _ _ _ _ Hsec) in Hrun.
      discriminate. }
  rewrite (connect_to_mysql_cases env 3 2 w w1 secret Hsec) in Hrun. simpl in Hrun.
  destruct (environ env !! "SECRET_NAME") as [name|]; [|discriminate].
  destruct (environ env !! "REGION_NAME") as [region|]; [|discriminate].
  injection Hs as -> Hsv.
  destruct (mysql_connect env _ _) as [c|e].
  - injection Hrun as <- _. exists region, name, secret. simpl.
    rewrite <- !app_assoc. auto.
  - destruct (is_mysql_or_io e); discriminate.
Qed.

(** The world after a load that returns. *)
Lemma insert_data_returns env cnx data w w' u df :
  heap w !! data = Some df ->
  insert_data env cnx data w = (w', Return u) ->
  exists table ps,
    environ env !! "DB_TABLE_NAME" = Some table /\
    Forall2 (fun it p => row_params (snd it) = Return p) (Pandas.iterrows df) ps /\
    heap w' = heap w /\
    trace w' = trace w ++ Cursor cnx :: map (Execute cnx (insert_query table)) ps
                       ++ [Commit cnx; CursorClose cnx].
Proof.
  intros Hd Hrun.
  destruct (environ env !! "DB_TABLE_NAME") as [table|] eqn:Henv.
  2:{ rewrite (insert_data_without_table env cnx data w Henv) in Hrun. discriminate. }
  destruct (insert_data_cases env cnx data w df table Henv Hd)
    as (ps & tail & Htr & Hps & Htail).
  pose proof (heap_pure_insert_data env cnx data w) as Hh.
  rewrite Hrun in Htr, Htail, Hh. simpl in *.
  destruct Htail as [(_ & e & He)|[(_ & _ & e & _ & He)|(-> & Hlen & _ & _)]];
    try discriminate.
  exists table, ps. split; [reflexivity|].
  rewrite Hlen, firstn_all in Hps. auto.
Qed.

(** X11: what a success response means.  When [lambda_handler] returns
    its response, the events of the run are, in this order: the five
    requests to the provider, the put of the text of the fetched frame,
    the request of the secret and one accepted connection attempt, one
    insert per record of the frame, the commit, the closing of the
    cursor and the closing of the connection; the heap has gained the
    fetched frame and is otherwise unchanged. *)
Theorem lambda_handler_success env w w' code body :
  lambda_handler env w = (w', Return (Response code body)) ->
  exists data df bucket key region_name secret_name secret cnx table ps,
    heap w !! data = None /\
    heap w' = <[data := df]> (heap w) /\
    Forall2 (fun it p => row_params (snd it) = Return p) (Pandas.iterrows df) ps /\
    trace w' = trace w
               ++ flat_map fetch_events tickers
               ++ archive_events (to_csv env df) bucket key
               ++ connect_events region_name secret_name (config_of_secret secret)
               ++ insert_events cnx table ps.
Proof.
  intros H. unfold lambda_handler in H. rewrite lambda_handler_with_unfold in H.
  destruct (get_market_value env w) as [w1 [data|e]] eqn:Hf; [|discriminate].
  unfold after_fetch, bind in H.
  destruct (save_in_bucket env data w1) as [w2 [u|e]] eqn:Hs; [|discriminate].
  destruct (connect_to_mysql env 3 2 w2) as [w3 [[cnx|]|e]] eqn:Hc; try discriminate.
  destruct (insert_data env cnx data w3) as [w4 [u'|e]] eqn:Hi; [|discriminate].
  unfold emit, lift in H. simpl in H.
  destruct (cnx_close env cnx) as [uc|e]; [|discriminate].
  injection H as <- _ _.
  destruct (get_market_value_returns_world _ _ _ _ Hf) as (df & Hfresh & Hh1 & Ht1).
  destruct (save_in_bucket_returns _ _ _ _ _ Hs) as (bucket & key & df' & Hd & Hh2 & Ht2).
  assert (df' = df).
  { rewrite Hh1, lookup_insert_eq in Hd. congruence. }
  subst df'.
  destruct (connect_to_mysql_returns_some _ _ _ _ Hc)
    as (region & name & secret & Hh3 & Ht3).
  assert (Hd3 : heap w3 !! data = Some df) by (rewrite Hh3, Hh2; exact Hd).
  destruct (insert_data_returns _ _ _ _ _ _ _ Hd3 Hi) as (table & ps & _ & Hps & Hh4 & Ht4).
  exists data, df, bucket, key, region, name, secret, cnx, table, ps. simpl.
  split; [exact Hfresh|]. split; [congruence|]. split; [exact Hps|].
  rewrite Ht4, Ht3, Ht2, Ht1. unfold insert_events.
  rewrite <- !app_assoc. simpl. rewrite <- !app_assoc. reflexivity.
Qed.

Lemma lambda_handler_success_witness :
  exists w',
    lambda_handler env_ok init_world
    = (w', Return (Response 200 (json_dumps "Data scrapped successfully!"))) /\
    requested (trace w') = tickers /\
    count is_put_object (trace w') = 1 /\
    count is_connect (trace w') = 1 /\
    length (executed (trace w')) = 5 /\
    count is_cnx_close (trace w') = 1.
Proof.
  exists (fst (lambda_handler env_ok init_world)).
  destruct (lambda_handler_success env_ok init_world
              (fst (lambda_handler env_ok init_world)) 200
              (json_dumps "Data scrapped successfully!"))
    as (data & df & bucket & key & region & name & secret & cnx & table & ps & _);
    [vm_compute; reflexivity|].
  repeat split; vm_compute; reflexivity.
Defined.

(** X12: [lambda_handler] never falls through its [if cnx is not None]:
    with the default three attempts [connect_to_mysql] does not return
    [None], so a run that returns at all returns the success response. *)
Theorem lambda_handler_never_returns_none env w w' v :
  lambda_handler env w = (w', Return v) ->
  v = Response 200 (json_dumps "Data scrapped successfully!").
Proof.
  intros H. unfold lambda_handler in H. rewrite lambda_handler_with_unfold in H.
  destruct (get_market_value env w) as [w1 [data|e]] eqn:Hf; [|discriminate].
  unfold after_fetch, bind in H.
  destruct (save_in_bucket env data w1) as [w2 [u|e]] eqn:Hs; [|discriminate].
  destruct (connect_to_mysql env 3 2 w2) as [w3 [[cnx|]|e]] eqn:Hc; try discriminate.
  - destruct (insert_data env cnx data w3) as [w4 [u'|e]]; [|discriminate].
    unfold emit, lift in H. simpl in H.
    destruct (cnx_close env cnx); [|discriminate].
    injection H as _ <-. reflexivity.
  - exfalso. destruct (get_secret env w2) as [w2' [secret|e]] eqn:Hsec.
    + rewrite (connect_to_mysql_cases env 3 2 w2 w2' secret Hsec) in Hc. simpl in Hc.
      destruct (mysql_connect env _ _) as [c|e]; [discriminate|].
      destruct (is_mysql_or_io e); discriminate.
    + unfold connect_to_mysql in Hc. rewrite (bind_Raise _ _ _ _ _ Hsec) in Hc.
      discriminate.
Qed.

Lemma lambda_handler_never_returns_none_witness :
  snd (lambda_handler env_ok init_world)
  = Return (Response 200 (json_dumps "Data scrapped successfully!")).
Proof.
  destruct (lambda_handler env_ok init_world) as [w' [v|e]] eqn:H.
  - simpl. f_equal. exact (lambda_handler_never_returns_none env_ok init_world w' v H).
  - exfalso. vm_compute in H. discriminate.
Defined.

Lemma count_cnx_close_inserts cnx q ps :
  count is_cnx_close (map (Execute cnx q) ps) = 0.
Proof. unfold count. induction ps; simpl; auto. Qed.

Lemma count_cnx_close_fetch ts : count is_cnx_close (flat_map fetch_events ts) = 0.
Proof. unfold count. induction ts; simpl; auto. Qed.

(** X13: an error of [insert_data] leaves the connection open.  When the
    load raises, on a connection [connect_to_mysql] has just returned,
    the handler raises that error and the run, which contains the
    message of the accepted connection, contains no call of [close] on
    a connection. *)
Theorem lambda_handler_leaves_connection_open env w w1 data w2 u w3 cnx w4 e :
  get_market_value env w = (w1, Return data) ->
  save_in_bucket env data w1 = (w2, Return u) ->
  connect_to_mysql env 3 2 w2 = (w3, Return (Some cnx)) ->
  insert_data env cnx data w3 = (w4, Raise e) ->
  lambda_handler env w = (w4, Raise e) /\
  In (Log "Connected to MySQL!") (events_of (lambda_handler env) w) /\
  count is_cnx_close (events_of (lambda_handler env) w) = 0.
Proof.
  intros Hf Hs Hc Hi.
  assert (Hrun : lambda_handler env w = (w4, Raise e)).
  { unfold lambda_handler. rewrite lambda_handler_with_unfold, Hf. unfold after_fetch.
    rewrite (bind_Return _ _ _ _ _ Hs), (bind_Return _ _ _ _ _ Hc),
      (bind_Raise _ _ _ _ _ Hi). reflexivity. }
  split; [exact Hrun|].
  destruct (get_market_value_returns_world _ _ _ _ Hf) as (df & Hfresh & Hh1 & Ht1).
  destruct (save_in_bucket_returns _ _ _ _ _ Hs) as (bucket & key & df' & Hd & Hh2 & Ht2).
  destruct (connect_to_mysql_returns_some _ _ _ _ Hc)
    as (region & name & secret & Hh3 & Ht3).
  assert (Hd3 : heap w3 !! data = Some df') by (rewrite Hh3, Hh2; exact Hd).
  assert (Hins : exists evs, trace w4 = trace w3 ++ evs /\ count is_cnx_close evs = 0).
  { destruct (environ env !! "DB_TABLE_NAME") as [table|] eqn:Henv.
    - destruct (insert_data_cases env cnx data w3 df' table Henv Hd3)
        as (ps & tail & Htr & _ & Htail).
      rewrite Hi in Htr. simpl in Htr. eexists. split; [exact Htr|].
      change (Cursor cnx :: ?l) with ([Cursor cnx] ++ l).
      rewrite !count_app, count_cnx_close_inserts.
      destruct Htail as [(-> & _)|[(-> & _)|(-> & _)]]; reflexivity.
    - rewrite (insert_data_without_table env cnx data w3 Henv) in Hi.
      injection Hi as <- _. exists []. rewrite app_nil_r. auto. }
  destruct Hins as (evs & Ht4 & Hcl).
  assert (Htr : trace w4 = trace w
                           ++ flat_map fetch_events tickers
                           ++ archive_events (to_csv env df') bucket key
                           ++ connect_events region name (config_of_secret secret)
                           ++ evs).
  { rewrite Ht4, Ht3, Ht2, Ht1, <- !app_assoc. reflexivity. }
  rewrite (events_of_run _ _ _ _ _ Hrun Htr). split.
  - apply in_or_app. right. apply in_or_app. right. apply in_or_app. left.
    simpl. auto.
  - rewrite !count_app, count_cnx_close_fetch, Hcl. reflexivity.
Qed.

Lemma lambda_handler_leaves_connection_open_witness :
  lambda_handler env_insert_fails init_world
  = (fst (lambda_handler env_insert_fails init_world), Raise (MySQLError "Data too long")) /\
  In (Log "Connected to MySQL!") (events_of (lambda_handler env_insert_fails) init_world) /\
  count is_cnx_close (events_of (lambda_handler env_insert_fails) init_world) = 0.
Proof.
  pose (w1 := fst (get_market_value env_insert_fails init_world)).
  pose (w2 := fst (save_in_bucket env_insert_fails 0 w1)).
  pose (w3 := fst (connect_to_mysql env_insert_fails 3 2 w2)).
  pose (w4 := fst (insert_data env_insert_fails 5 0 w3)).
  assert (E : fst (lambda_handler env_insert_fails init_world) = w4)
    by (vm_compute; reflexivity).
  rewrite E.
  apply (lambda_handler_leaves_connection_open env_insert_fails init_world
           w1 0 w2 tt w3 5 w4); vm_compute; reflexivity.
Defined.

(** X14: the configuration is read late.  A variable missing from the
    environment is noticed only by the step that reads it, after the
    effects of the steps before: without [BUCKET_DEST] the five requests
    to the provider are made first; without [SECRET_NAME] the archive is
    written first; without [DB_TABLE_NAME] a connection is opened first,
    and is left open. *)
Theorem lambda_handler_late_configuration_errors env w w1 data :
  get_market_value env w = (w1, Return data) ->
  (environ env !! "BUCKET_DEST" = None ->
   lambda_handler env w = (w1, Raise (KeyError "BUCKET_DEST")) /\
   events_of (lambda_handler env) w = flat_map fetch_events tickers) /\
  (forall w2 u,
      save_in_bucket env data w1 = (w2, Return u) ->
      environ env !! "SECRET_NAME" = None ->
      lambda_handler env w = (w2, Raise (KeyError "SECRET_NAME")) /\
      exists df bucket key,
        heap w1 !! data = Some df /\
        events_of (lambda_handler env) w
        = flat_map fetch_events tickers ++ archive_events (to_csv env df) bucket key) /\
  (forall w2 u w3 cnx,
      save_in_bucket env data w1 = (w2, Return u) ->
      connect_to_mysql env 3 2 w2 = (w3, Return (Some cnx)) ->
      environ env !! "DB_TABLE_NAME" = None ->
      lambda_handler env w = (w3, Raise (KeyError "DB_TABLE_NAME")) /\
      exists df bucket key region_name secret_name secret,
        heap w1 !! data = Some df /\
        events_of (lambda_handler env) w
        = flat_map fetch_events tickers ++ archive_events (to_csv env df) bucket key
          ++ connect_events region_name secret_name (config_of_secret secret)).
Proof.
  intros Hf.
  destruct (get_market_value_returns_world _ _ _ _ Hf) as (df & Hfresh & Hh1 & Ht1).
  assert (Hunfold : lambda_handler env w
                    = let (w', r) := after_fetch env (connect_to_mysql env 3 2) data w1 in
                      (w', r)).
  { unfold lambda_handler. rewrite lambda_handler_with_unfold, Hf.
    destruct (after_fetch _ _ _ _) as [w' [v|e]]; reflexivity. }
  split; [|split].
  - intros Hb.
    assert (Hs : save_in_bucket env data w1 = (w1, Raise (KeyError "BUCKET_DEST"))).
    { rewrite save_in_bucket_run, Hb. reflexivity. }
    assert (Hrun : lambda_handler env w = (w1, Raise (KeyError "BUCKET_DEST"))).
    { rewrite Hunfold. unfold after_fetch. rewrite (bind_Raise _ _ _ _ _ Hs). reflexivity. }
    split; [exact Hrun|]. exact (events_of_run _ _ _ _ _ Hrun Ht1).
  - intros w2 u Hs Hn.
    destruct (save_in_bucket_returns _ _ _ _ _ Hs) as (bucket & key & df' & Hd & Hh2 & Ht2).
    assert (Hc : connect_to_mysql env 3 2 w2 = (w2, Raise (KeyError "SECRET_NAME"))).
    { unfold connect_to_mysql. apply bind_Raise. rewrite get_secret_run, Hn. reflexivity. }
    assert (Hrun : lambda_handler env w = (w2, Raise (KeyError "SECRET_NAME"))).
    { rewrite Hunfold. unfold after_fetch.
      rewrite (bind_Return _ _ _ _ _ Hs), (bind_Raise _ _ _ _ _ Hc). reflexivity. }
    split; [exact Hrun|]. exists df', bucket, key. split; [exact Hd|].
    apply (events_of_run _ _ _ _ _ Hrun). rewrite Ht2, Ht1, <- app_assoc. reflexivity.
  - intros w2 u w3 cnx Hs Hc Ht.
    destruct (save_in_bucket_returns _ _ _ _ _ Hs) as (bucket & key & df' & Hd & Hh2 & Ht2).
    destruct (connect_to_mysql_returns_some _ _ _ _ Hc)
      as (region & name & secret & Hh3 & Ht3).
    assert (Hrun : lambda_handler env w = (w3, Raise (KeyError "DB_TABLE_NAME"))).
    { rewrite Hunfold. unfold after_fetch.
      rewrite (bind_Return _ _ _ _ _ Hs), (bind_Return _ _ _ _ _ Hc),
        (bind_Raise _ _ _ _ _ (insert_data_without_table env cnx data w3 Ht)).
      reflexivity. }
    split; [exact Hrun|]. exists df', bucket, key, region, name, secret.
    split; [exact Hd|].
    apply (events_of_run _ _ _ _ _ Hrun). rewrite Ht3, Ht2, Ht1, <- !app_assoc. reflexivity.
Qed.

Lemma lambda_handler_late_configuration_errors_witness :
  (snd (lambda_handler env_no_bucket init_world) = Raise (KeyError "BUCKET_DEST") /\
   requested (events_of (lambda_handler env_no_bucket) init_world) = tickers) /\
  (snd (lambda_handler env_no_secret_name init_world) = Raise (KeyError "SECRET_NAME") /\
   count is_put_object (events_of (lambda_handler env_no_secret_name) init_world) = 1) /\
  (snd (lambda_handler env_no_table init_world) = Raise (KeyError "DB_TABLE_NAME") /\
   count is_connect (events_of (lambda_handler env_no_table) init_world) = 1 /\
   count is_cnx_close (events_of (lambda_handler env_no_table) init_world) = 0).
Proof.
  split; [|split].
  - destruct (lambda_handler_late_configuration_errors env_no_bucket init_world
                (fst (get_market_value env_no_bucket init_world)) 0)
      as ([Hr He] & _); [vm_compute; reflexivity|vm_compute; reflexivity|].
    rewrite Hr, He. split; [reflexivity|vm_compute; reflexivity].
  - pose (w1 := fst (get_market_value env_no_secret_name init_world)).
    destruct (lambda_handler_late_configuration_errors env_no_secret_name init_world w1 0)
      as (_ & H & _); [vm_compute; reflexivity|].
    destruct (H (fst (save_in_bucket env_no_secret_name 0 w1)) tt)
      as (Hr & df & bucket & key & _ & He);
      [vm_compute; reflexivity|vm_compute; reflexivity|].
    rewrite Hr, He. split; [reflexivity|].
    rewrite count_app. unfold count at 2. simpl. vm_compute. reflexivity.
  - pose (w1 := fst (get_market_value env_no_table init_world)).
    pose (w2 := fst (save_in_bucket env_no_table 0 w1)).
    destruct (lambda_handler_late_configuration_errors env_no_table init_world w1 0)
      as (_ & _ & H); [vm_compute; reflexivity|].
    destruct (H w2 tt (fst (connect_to_mysql env_no_table 3 2 w2)) 5)
      as (Hr & df & bucket & key & region & name & secret & _ & He);
      [vm_compute; reflexivity|vm_compute; reflexivity|vm_compute; reflexivity|].
    rewrite Hr, He. split; [reflexivity|].
    rewrite !count_app. split; vm_compute; reflexivity.
Defined.
